(** * Plantalyze: the mask decoding, resizing, statistics and white-balance
    code of [backend/segmentation.py], [backend/preprocessing.py],
    [backend/app.py] and [api/analyze.py], embedded as Rocq functions.

    Arrays are [ndarray]s: a shape and the elements in row-major order.
    The float32 values of the model output are IEEE-754 binary32 numbers
    ([spec_float] with precision 24 and maximal exponent 128), so the one
    rounding of the decoder, [prediction * 255], is the real one.  The
    coordinates of [cv2.resize] and the statistics of the response are
    binary64 numbers.  The means of the white balance are exact
    rationals.  A request is the outcome of [request.get_json()], a JSON
    value or an exception. *)

From Stdlib Require Import Ascii String.
From Stdlib Require Import ZArith List Bool Lia QArith Qround.
From Stdlib Require Import SpecFloat.
Import ListNotations.

Local Open Scope Z_scope.

(** ** Python results *)

(** The exceptions the modelled code can raise, each with the text that
    [str] gives it; [HTTPException] is the exception of werkzeug that
    [request.get_json] raises.  [NotModelled] marks a call on an input that
    this development does not describe. *)
Inductive pyerror : Type :=
| ValueError (msg : string)
| TypeError (msg : string)
| KeyError (msg : string)
| HTTPException (msg : string)
| Cv2Error (msg : string)
| NotModelled (what : string).

Inductive result (A : Type) : Type :=
| Ok (a : A)
| Raise (e : pyerror).
Arguments Ok {A} a.
Arguments Raise {A} e.

Definition bind {A B : Type} (r : result A) (k : A -> result B) : result B :=
  match r with
  | Ok a => k a
  | Raise e => Raise e
  end.

(** ** NumPy arrays *)

Module Np.

Record ndarray (A : Type) : Type := mk_ndarray
  { shape : list nat;
    data : list A }.
Arguments mk_ndarray {A} shape data.
Arguments shape {A} n.
Arguments data {A} n.

(** [prod] of a shape: the number of elements, [ndarray.size]. *)
Definition size_of (s : list nat) : nat := fold_right Nat.mul 1%nat s.

Definition size {A} (a : ndarray A) : nat := size_of (shape a).
Definition ndim {A} (a : ndarray A) : nat := length (shape a).

(** [a.shape[-1]]; total here, the callers test [ndim] first. *)
Definition last_dim {A} (a : ndarray A) : nat := last (shape a) 0%nat.

(** An array holds exactly [prod shape] elements. *)
Definition wf {A} (a : ndarray A) : Prop :=
  length (data a) = size_of (shape a).

(** [a.squeeze()] drops every axis of length one; the elements stay. *)
Definition squeeze_shape (s : list nat) : list nat :=
  filter (fun d => negb (Nat.eqb d 1)) s.

Definition squeeze {A} (a : ndarray A) : ndarray A :=
  mk_ndarray (squeeze_shape (shape a)) (data a).

(** The [n] consecutive runs of [c] elements of a row-major array: the
    vectors along the last axis. *)
Fixpoint lanes {A} (c n : nat) (l : list A) : list (list A) :=
  match n with
  | O => []
  | S n' => firstn c l :: lanes c n' (skipn c l)
  end.

(** The row-major elements of the two-dimensional array whose entry at
    row [y] and column [x] is [f y x]. *)
Definition grid {A} (h w : nat) (f : nat -> nat -> A) : list A :=
  flat_map (fun y => map (f y) (seq 0 w)) (seq 0 h).

(** [np.zeros_like]. *)
Definition zeros_like {A} (a : list A) : list Z := repeat 0 (length a).

(** [dst[sel(src)] = v]: assignment through a boolean mask computed
    from [src], element by element. *)
Definition masked_assign {A B} (sel : A -> bool) (v : B)
           (src : list A) (dst : list B) : list B :=
  map (fun sd => if sel (fst sd) then v else snd sd) (combine src dst).

(** [astype(np.uint8)] of an integer array wraps modulo 256. *)
Definition int_to_uint8 (z : Z) : Z := z mod 256.

(** [np.sum(a == v)]. *)
Definition count_eq (v : Z) (l : list Z) : Z :=
  Z.of_nat (length (filter (Z.eqb v) l)).

End Np.
Import Np.

(** ** binary32 *)

Module F32.

Definition prec : Z := 24.
Definition emax : Z := 128.

Definition mul : spec_float -> spec_float -> spec_float := SFmul prec emax.

(** An integer as a float32, rounded to nearest even. *)
Definition of_Z (z : Z) : spec_float := binary_normalize prec emax z 0 false.

Definition isnan (x : spec_float) : bool :=
  match x with
  | S754_nan => true
  | _ => false
  end.

Definition isfinite (x : spec_float) : bool :=
  match x with
  | S754_zero _ | S754_finite _ _ _ => true
  | _ => false
  end.

(** The rational number a finite float denotes, [m * 2^e] with its sign
    (0 for the values that denote none). *)
Definition SF2Q (x : spec_float) : Q :=
  match x with
  | S754_finite s m (Zneg k) => Qmake (cond_Zopp s (Zpos m)) (2 ^ k)%positive
  | S754_finite s m e => inject_Z (cond_Zopp s (Zpos m) * 2 ^ e)
  | _ => 0%Q
  end.

(** The integer part, rounding toward zero, as a C cast takes it. *)
Definition trunc (x : spec_float) : option Z :=
  match x with
  | S754_zero _ => Some 0
  | S754_finite s m (Zneg k) => Some (cond_Zopp s (Zpos m / 2 ^ Zpos k))
  | S754_finite s m e => Some (cond_Zopp s (Zpos m * 2 ^ e))
  | _ => None
  end.

Section Cast.
(** [astype(np.uint8)] of a float array is a C cast: the integer part
    when that fits a byte.  For NaN, the infinities and every value
    whose integer part is outside 0..255 C leaves the result undefined
    and NumPy returns whatever the platform yields; [undefined_cast]
    stands for that byte. *)
Variable undefined_cast : spec_float -> Z.

Definition to_uint8 (x : spec_float) : Z :=
  match trunc x with
  | Some z => if (0 <=? z) && (z <? 256) then z
              else undefined_cast x mod 256
  | None => undefined_cast x mod 256
  end.
End Cast.

End F32.

(** ** binary64 *)

Module F64.

Definition prec : Z := 53.
Definition emax : Z := 1024.

Definition mul : spec_float -> spec_float -> spec_float := SFmul prec emax.
Definition div : spec_float -> spec_float -> spec_float := SFdiv prec emax.

(** An integer as a double, rounded to nearest even. *)
Definition of_Z (z : Z) : spec_float := binary_normalize prec emax z 0 false.
Definition of_nat (n : nat) : spec_float := of_Z (Z.of_nat n).

(** [cvFloor]: the largest integer not above a finite double (the other
    values do not occur as coordinates and are sent to 0). *)
Definition floor (x : spec_float) : Z :=
  match x with
  | S754_finite s m (Zneg k) => cond_Zopp s (Zpos m) / 2 ^ Zpos k
  | S754_finite s m e => cond_Zopp s (Zpos m) * 2 ^ e
  | _ => 0
  end.

End F64.

(** ** segmentation.py *)

Module Segmentation.

(** [np.argmax] on a float vector, as NumPy's inner loop computes it:
    the running maximum [mp] is replaced when [not (x <= mp)], and a NaN
    ends the scan at once. *)
Fixpoint argmax_from (mp : spec_float) (max_ind i : nat)
         (ip : list spec_float) : nat :=
  match ip with
  | [] => max_ind
  | x :: rest =>
      if negb (SFleb x mp) then
        if F32.isnan x then i else argmax_from x i (S i) rest
      else argmax_from mp max_ind (S i) rest
  end.

Definition argmax (v : list spec_float) : nat :=
  match v with
  | [] => 0%nat
  | mp :: rest => if F32.isnan mp then 0%nat else argmax_from mp 0 1 rest
  end.

(** [mapping = {0: 0, 1: 128, 2: 255}] and [mapping.get(x, 255)]. *)
Definition mapping : list (Z * Z) := [(0, 0); (1, 128); (2, 255)].

Fixpoint dict_get (d : list (Z * Z)) (x default : Z) : Z :=
  match d with
  | [] => default
  | (k, v) :: d' => if Z.eqb k x then v else dict_get d' x default
  end.

Section Decode.
Variable undefined_cast : spec_float -> Z.

(** The three-band thresholding of the single-channel branch, on the
    uint8 array [mask]. *)
Definition three_class (mask : list Z) : list Z :=
  let mask_3class := zeros_like mask in
  let mask_3class := masked_assign (fun m => m <? 85) 0 mask mask_3class in
  let mask_3class :=
    masked_assign (fun m => (85 <=? m) && (m <? 170)) 128 mask mask_3class in
  masked_assign (fun m => 170 <=? m) 255 mask mask_3class.

(** [process_unet_output].  The second [print] evaluates
    [prediction.min()], which raises on an array without elements. *)
Definition process_unet_output (prediction : ndarray spec_float)
  : result (ndarray Z) :=
  if Nat.eqb (size prediction) 0 then
    Raise (ValueError
      "zero-size array to reduction operation minimum which has no identity")
  else if Nat.eqb (ndim prediction) 3 && Nat.leb 3 (last_dim prediction) then
    let hw := removelast (shape prediction) in
    let mask_idx :=
      map (fun px => int_to_uint8 (Z.of_nat (argmax px)))
          (lanes (last_dim prediction) (size_of hw) (data prediction)) in
    Ok (mk_ndarray hw
          (map (fun x => int_to_uint8 (dict_get mapping x 255)) mask_idx))
  else if Nat.eqb (ndim prediction) 3 && Nat.eqb (last_dim prediction) 2 then
    let hw := removelast (shape prediction) in
    let mask_idx :=
      map (fun px => int_to_uint8 (Z.of_nat (argmax px)))
          (lanes 2 (size_of hw) (data prediction)) in
    Ok (mk_ndarray hw (map (fun x => int_to_uint8 (x * 255)) mask_idx))
  else
    let prediction :=
      if Nat.eqb (ndim prediction) 3 then squeeze prediction
      else prediction in
    let mask :=
      map (fun v => F32.to_uint8 undefined_cast (F32.mul v (F32.of_Z 255)))
          (data prediction) in
    Ok (mk_ndarray (shape prediction) (three_class mask)).
End Decode.


(** *** Colouring *)

(** One pixel of a colour image: the three entries of the last axis. *)
Definition rgb : Type := (Z * Z * Z)%type.

(** [create_colored_mask].  The result has shape [(h, w, 3)]; its
    elements are kept as [h * w] triples.  Unpacking [mask.shape] into
    [h, w] raises a [ValueError] unless the mask is two-dimensional (the
    text for more than two axes is the one of CPython up to 3.13). *)
Definition create_colored_mask (mask : ndarray Z) : result (ndarray rgb) :=
  match shape mask with
  | [h; w] =>
      let colored_mask := repeat (0, 0, 0) (h * w) in
      let colored_mask :=
        masked_assign (fun m => m =? 0) (0, 0, 0) (data mask) colored_mask in
      let colored_mask :=
        masked_assign (fun m => m =? 128) (0, 255, 0) (data mask)
                      colored_mask in
      let colored_mask :=
        masked_assign (fun m => m =? 255) (255, 0, 0) (data mask)
                      colored_mask in
      Ok (mk_ndarray [h; w] colored_mask)
  | [] => Raise (ValueError "not enough values to unpack (expected 2, got 0)")
  | [_] => Raise (ValueError "not enough values to unpack (expected 2, got 1)")
  | _ => Raise (ValueError "too many values to unpack (expected 2)")
  end.

(** *** Resizing *)

(** [cv2.resize(..., interpolation=cv2.INTER_NEAREST)], the call of
    [predict_segmentation], on a single-channel image.  OpenCV is not part
    of the repository; its routine [resizeNN] first fills the table
    [x_ofs] with the source column [min (coord sw dw x) (sw - 1)] of every
    destination column, and then copies, row by row, the pixels of the
    source row [min (coord sh dh y) (sh - 1)] that the table names.
    [coord ssize dsize] is the map from a destination coordinate to its
    source coordinate. *)
Definition resize_nearest (coord : nat -> nat -> nat -> nat)
           (sh sw dh dw : nat) (px : list Z) : list Z :=
  let source_column := coord sw dw in
  let source_row := coord sh dh in
  let x_ofs :=
    map (fun x => Nat.min (source_column x) (sw - 1)) (seq 0 dw) in
  flat_map
    (fun y =>
       let sy := Nat.min (source_row y) (sh - 1) in
       map (fun sx => nth (sy * sw + sx)%nat px 0) x_ofs)
    (seq 0 dh).

(** The source coordinate as OpenCV computes it, in doubles:
    [inv_scale = (double)dsize / ssize] and [ifx = 1. / inv_scale] once
    for the axis, then [sx = cvFloor(x * ifx)] for every coordinate (the
    32-bit range of [sx] is not modelled). *)
Definition cv_coord (ssize dsize : nat) : nat -> nat :=
  let inv_scale := F64.div (F64.of_nat dsize) (F64.of_nat ssize) in
  let ifx := F64.div (F64.of_Z 1) inv_scale in
  fun x => Z.to_nat (F64.floor (F64.mul (F64.of_nat x) ifx)).

(** The same coordinate without rounding: [floor (x * ssize / dsize)]. *)
Definition exact_coord (ssize dsize x : nat) : nat := (x * ssize / dsize)%nat.

(** How the binding of OpenCV reads an array as a single-channel image:
    a two-dimensional array as it is, a one-dimensional array of [n]
    elements as [n] rows of one column.  Other layouts are not described
    here. *)
Definition as_mat (s : list nat) : option (nat * nat) :=
  match s with
  | [rows; cols] => Some (rows, cols)
  | [n] => Some (n, 1%nat)
  | _ => None
  end.

(** [dsize] is [(width, height)].  A source without pixels fails the
    assertion on [ssize]; a [dsize] with a side of 0 counts as not given,
    and the scale factors, which are 0 by default, fail the next
    assertion.  For an array that [as_mat] does not describe the model
    answers [NotModelled]. *)
Definition cv2_resize (src : ndarray Z) (dsize : nat * nat)
  : result (ndarray Z) :=
  match as_mat (shape src) with
  | Some (sh, sw) =>
      let (dw, dh) := dsize in
      if Nat.eqb sh 0 || Nat.eqb sw 0 then
        Raise (Cv2Error "(-215:Assertion failed) !ssize.empty()")
      else if Nat.eqb dw 0 || Nat.eqb dh 0 then
        Raise (Cv2Error "(-215:Assertion failed) inv_scale_x > 0")
      else
        Ok (mk_ndarray [dh; dw]
              (resize_nearest cv_coord sh sw dh dw (data src)))
  | None =>
      Raise (NotModelled "cv2.resize on an array of no or of three and more axes")
  end.

End Segmentation.
Import Segmentation.


(** ** preprocessing.py *)

Module Preprocessing.

(** A colour image: shape [(h, w)] of [rgb] triples with entries 0..255. *)
Definition image : Type := ndarray rgb.

Definition byte_range (z : Z) : Prop := 0 <= z <= 255.

Definition valid_pixel (p : rgb) : Prop :=
  let '(r, g, b) := p in byte_range r /\ byte_range g /\ byte_range b.

Definition valid_image (img : image) : Prop :=
  wf img /\ Forall valid_pixel (data img).

Definition channel {A} (i : nat) (p : A * A * A) : A :=
  let '(r, g, b) := p in
  match i with
  | O => r
  | S O => g
  | _ => b
  end.

Definition set_channel {A} (i : nat) (v : A) (p : A * A * A) : A * A * A :=
  let '(r, g, b) := p in
  match i with
  | O => (v, g, b)
  | S O => (r, v, b)
  | _ => (r, g, v)
  end.

Definition map_pixel {A B} (f : A -> B) (p : A * A * A) : B * B * B :=
  let '(r, g, b) := p in (f r, f g, f b).

Definition sum (l : list Z) : Z := fold_right Z.add 0 l.

(** Every entry of the image, as [np.mean(img)] sees them. *)
Definition entries (px : list rgb) : list Z :=
  flat_map (fun p => [channel 0 p; channel 1 p; channel 2 p]) px.

(** [np.mean]: the binary64 quotient of the code is taken as the exact
    rational.  The white balance is modelled without its roundings (the
    two means, their quotient, and the product that is stored into the
    float32 image), so its bytes are those of the code only where the
    code does not round: where the factor is 1 and where a channel is
    skipped.  What is proved of it beyond these cases holds for any
    rounding that keeps the order. *)
Definition mean (l : list Z) : Q :=
  (inject_Z (sum l) / inject_Z (Z.of_nat (length l)))%Q.

(** [np.clip(x, 0, 255)]. *)
Definition clip (x : Q) : Q :=
  if Qle_bool x 0 then 0%Q
  else if Qle_bool 255 x then 255%Q
  else x.

(** [astype(np.uint8)]: the integer part toward zero, as a byte. *)
Definition to_uint8 (x : Q) : Z :=
  (if Qle_bool 0 x then Qfloor x else Qceiling x) mod 256.

(** One round of the [for i in range(3)] loop. *)
Definition balance_channel (img : image) (mean_global : Q)
           (img_float : list (Q * Q * Q)) (i : nat) : list (Q * Q * Q) :=
  let mean_channel := mean (map (channel i) (data img)) in
  if negb (Qle_bool mean_channel 0) then
    map (fun p =>
           set_channel i (channel i p * (mean_global / mean_channel))%Q p)
        img_float
  else img_float.

(** [gray_world_white_balance]. *)
Definition gray_world_white_balance (img : image) : image :=
  let img_float := map (map_pixel inject_Z) (data img) in
  let mean_global := mean (entries (data img)) in
  let img_float :=
    fold_left (balance_channel img mean_global) (seq 0 3) img_float in
  mk_ndarray (shape img)
             (map (map_pixel (fun x => to_uint8 (clip x))) img_float).

(** [cv2.cvtColor] between BGR and RGB swaps the outer channels and
    rejects an image without pixels. *)
Definition cvtColor_swap (img : image) : result image :=
  if Nat.eqb (size img) 0 then
    Raise (Cv2Error "(-215:Assertion failed) !_src.empty()")
  else
    Ok (mk_ndarray (shape img)
          (map (fun p => (channel 2 p, channel 1 p, channel 0 p)) (data img))).

(** What the module takes from OpenCV and the file system. *)
Class Cv2 (path : Type) : Type :=
  { (** [cv2.imread]: [None] when the file is missing or is not an image *)
    imread : path -> option image;
    (** [apply_white_balance]: xphoto's balancer or the gray-world one *)
    apply_white_balance : image -> result image;
    apply_clahe : image -> result image;
    fastNlMeansDenoisingColored : image -> result image;
    apply_sharpening : image -> result image }.

(** [preprocess_leaf(image_path)], with [output_dir] left at [None].
    [Ok None] is the function returning [None]; [Raise] is an exception
    leaving it. *)
Definition preprocess_leaf {path} `{Cv2 path} (image_path : path)
  : result (option image) :=
  match imread image_path with
  | None => Ok None
  | Some img =>
      bind (cvtColor_swap img) (fun img =>
      bind (apply_white_balance img) (fun img_wb =>
      bind (apply_clahe img_wb) (fun img_clahe =>
      bind (fastNlMeansDenoisingColored img_clahe) (fun img_denoised =>
      bind (apply_sharpening img_denoised) (fun img_sharp =>
      Ok (Some img_sharp))))))
  end.

End Preprocessing.
Import Preprocessing.

(** ** The JSON body of a request *)

Module Json.

(** A value that [json.loads] yields: [None], a [bool], an [int], a
    [float], a [str], a [list], or a [dict] given by its items, every key
    once. *)
#[warnings="-register-all"]
Inductive json : Type :=
| JNull
| JBool (b : bool)
| JInt (z : Z)
| JFloat (x : spec_float)
| JString (s : string)
| JArray (items : list json)
| JObject (items : list (string * json)).

(** [bool(data)]: [None], [False], a zero, and the empty string, list and
    dict are false. *)
Definition truthy (data : json) : bool :=
  match data with
  | JNull => false
  | JBool b => b
  | JInt z => negb (z =? 0)
  | JFloat (S754_zero _) => false
  | JFloat _ => true
  | JString EmptyString => false
  | JString _ => true
  | JArray [] => false
  | JArray _ => true
  | JObject [] => false
  | JObject _ => true
  end.

(** [sub in s] on strings. *)
Fixpoint substring (sub s : string) : bool :=
  String.prefix sub s ||
  match s with
  | EmptyString => false
  | String _ s' => substring sub s'
  end.

(** The value of [key] among the items of a dict. *)
Fixpoint lookup (key : string) (items : list (string * json)) : option json :=
  match items with
  | [] => None
  | (k, v) :: items' => if String.eqb k key then Some v else lookup key items'
  end.

Section Interpreter.
(** The texts of the two [TypeError]s of CPython that the handlers can
    meet; they change with the version of the interpreter and are left
    open. *)
Variable not_iterable : json -> string.
Variable not_subscriptable : json -> string.

(** [key in data] for a string [key]: a key of a dict, an element of a
    list, a part of a string; the other values are no containers. *)
Definition contains (key : string) (data : json) : result bool :=
  match data with
  | JObject items =>
      Ok (match lookup key items with Some _ => true | None => false end)
  | JArray items =>
      Ok (existsb (fun v => match v with
                            | JString s => String.eqb s key
                            | _ => false
                            end) items)
  | JString s => Ok (substring key s)
  | _ => Raise (TypeError (not_iterable data))
  end.

(** [data[key]] for a string [key]: only a dict can be indexed by it. *)
Definition getitem (key : string) (data : json) : result json :=
  match data with
  | JObject items =>
      match lookup key items with
      | Some v => Ok v
      | None => Raise (KeyError ("'" ++ key ++ "'"))
      end
  | _ => Raise (TypeError (not_subscriptable data))
  end.
End Interpreter.

End Json.
Import Json.

(** ** app.py *)

Module App.

(** The arithmetic of the statistics, so that they can be read both with
    exact rationals and with the binary64 numbers Python computes in. *)
Class Arith (F : Type) : Type :=
  { of_int : Z -> F;
    fdiv : F -> F -> F;
    fmul : F -> F -> F }.

#[export] Instance exact : Arith Q :=
  { of_int := inject_Z; fdiv := Qdiv; fmul := Qmult }.

#[export] Instance binary64 : Arith spec_float :=
  { of_int := F64.of_Z; fdiv := F64.div; fmul := F64.mul }.

Record mask_stats (F : Type) : Type := mk_stats
  { backgroundPercent : F;
    healthyPercent : F;
    diseasedPercent : F }.
Arguments mk_stats {F} _ _ _.
Arguments backgroundPercent {F} _.
Arguments healthyPercent {F} _.
Arguments diseasedPercent {F} _.

(** [count / total_pixels * 100]. *)
Definition percent {F} `{Arith F} (count total : Z) : F :=
  fmul (fdiv (of_int count) (of_int total)) (of_int 100).

(** The [maskStats] entry of the response of [analyze_leaf]. *)
Definition maskStats {F} `{Arith F} (mask : ndarray Z) : mask_stats F :=
  let background_pixels := count_eq 0 (data mask) in
  let healthy_pixels := count_eq 128 (data mask) in
  let diseased_pixels := count_eq 255 (data mask) in
  let total_pixels := Z.of_nat (size mask) in
  mk_stats (percent background_pixels total_pixels)
           (percent healthy_pixels total_pixels)
           (percent diseased_pixels total_pixels).

Inductive body : Type :=
| ErrorBody (msg : string)
| NotLeaf
| Analysis (mask : ndarray Z) (stats : mask_stats spec_float).

Record response : Type := mk_response
  { status : Z;
    payload : body }.

Definition str (e : pyerror) : string :=
  match e with
  | ValueError msg => msg
  | TypeError msg => msg
  | KeyError msg => msg
  | HTTPException msg => msg
  | Cv2Error msg => msg
  | NotModelled what => what
  end.

(** The collaborators of the request handler. *)
Class Backend (path : Type) : Type :=
  { cv2 :: Cv2 path;
    (** [decode_base64_image] on a string *)
    decode_base64_image : string -> result image;
    (** the text of the exception that [base64.b64decode] raises inside
        [decode_base64_image] on a value that is no string *)
    decode_error : json -> string;
    (** the texts of the [TypeError]s of [in] and of indexing *)
    not_iterable : json -> string;
    not_subscriptable : json -> string;
    is_valid_leaf_image : image -> result bool;
    (** a fresh temporary file holding the image *)
    imwrite_temp : image -> path;
    (** [predict_segmentation] with the loaded model; it catches its own
        exceptions and returns [None] *)
    predict_segmentation : path -> option (ndarray Z) }.

(** [decode_base64_image(base64_image)] on the value of the field: on a
    value that is no string the [try] of the function catches the
    exception of [base64.b64decode] and raises its own [ValueError]. *)
Definition decode_value {path} `{Backend path} (base64_image : json)
  : result image :=
  match base64_image with
  | JString base64_string => decode_base64_image base64_string
  | _ =>
      Raise (ValueError ("Failed to decode image: "
                         ++ decode_error base64_image))
  end.

(** The body of the [try] of [analyze_leaf]; [get_json] is the outcome of
    [request.get_json()], which raises on a body that is no JSON.  The
    test [not data or 'image' not in data] evaluates its second part only
    for a true [data]. *)
Definition analyze_leaf_try {path} `{Backend path} (get_json : result json)
  : result response :=
  bind get_json (fun data =>
  bind (if negb (truthy data) then Ok true
        else bind (contains not_iterable "image" data)
                  (fun has_image => Ok (negb has_image)))
       (fun no_image =>
  if no_image then Ok (mk_response 400 (ErrorBody "No image provided"))
  else
    bind (getitem not_subscriptable "image" data) (fun base64_image =>
    bind (decode_value base64_image) (fun image_array =>
    bind (is_valid_leaf_image image_array) (fun is_leaf =>
    if negb is_leaf then Ok (mk_response 200 NotLeaf)
    else
      let temp_path := imwrite_temp image_array in
      bind (preprocess_leaf temp_path) (fun preprocessed_image =>
      match preprocessed_image with
      | None => Raise (ValueError "Preprocessing failed")
      | Some preprocessed_image =>
          let preprocessed_path := imwrite_temp preprocessed_image in
          match predict_segmentation preprocessed_path with
          | None => Raise (ValueError "Segmentation failed")
          | Some mask =>
              Ok (mk_response 200 (Analysis mask (maskStats mask)))
          end
      end)))))).

(** [analyze_leaf]: any exception becomes a 500 response. *)
Definition analyze_leaf {path} `{Backend path} (get_json : result json)
  : response :=
  match analyze_leaf_try get_json with
  | Ok r => r
  | Raise e => mk_response 500 (ErrorBody ("Analysis failed: " ++ str e))
  end.

End App.
Import App.

(** ** segmentation.py: the diseased regions *)

Module Regions.

(** [extract_diseased_regions], on an image of shape [(h, w, 3)].  A mask
    whose shape differs from [(h, w)] is first resized to the image with
    nearest-neighbour sampling; then [result[mask != 255] = [0, 0, 0]]
    blackens the copy of the image. *)
Definition extract_diseased_regions (image : ndarray rgb) (mask : ndarray Z)
  : result (ndarray rgb) :=
  match shape image with
  | [h; w] =>
      bind (if list_eq_dec Nat.eq_dec (shape image) (shape mask) then Ok mask
            else cv2_resize mask (w, h))
           (fun mask =>
              Ok (mk_ndarray (shape image)
                    (masked_assign (fun m => negb (m =? 255)) (0, 0, 0)
                                   (data mask) (data image))))
  | _ => Raise (NotModelled "an image that is not of shape (h, w, 3)")
  end.

End Regions.

(** ** segmentation.py: the prediction *)

Module Inference.

(** One entry of [image_rgb.astype(np.float32) / 255.0]. *)
Definition normalize (z : Z) : spec_float :=
  SFdiv F32.prec F32.emax (F32.of_Z z) (F32.of_Z 255).

(** What [predict_segmentation] takes from OpenCV, Keras and the
    platform. *)
Class Unet (M : Type) : Type :=
  { (** [cv2.resize(image, (256, 256))] *)
    resize_to_input : image -> result image;
    (** [model.predict(image_input, verbose=0)[0]] *)
    predict :
      M -> ndarray (spec_float * spec_float * spec_float) ->
      result (ndarray spec_float);
    (** the byte of a float cast that C leaves undefined *)
    undefined_cast : spec_float -> Z }.

(** [try: ... except Exception: ... return None]: every exception of the
    body becomes the result [None].  A [NotModelled] outcome is not an
    exception of the code and is passed on as it is. *)
Definition or_none {A} (r : result A) : result (option A) :=
  match r with
  | Ok a => Ok (Some a)
  | Raise (NotModelled what) => Raise (NotModelled what)
  | Raise _ => Ok None
  end.

(** [predict_segmentation(image_path, model)]; [model] is [None] when no
    model could be loaded. *)
Definition predict_segmentation {path M} `{Cv2 path} `{Unet M}
           (image_path : path) (model : option M)
  : result (option (ndarray Z)) :=
  match model with
  | None => Ok None
  | Some model =>
      match imread image_path with
      | None => Ok None
      | Some image =>
          or_none
            match shape image with
            | [h; w] =>
                let original_size := (w, h) in
                bind (resize_to_input image) (fun image_resized =>
                bind (cvtColor_swap image_resized) (fun image_rgb =>
                let image_normalized :=
                  mk_ndarray (shape image_rgb)
                             (map (map_pixel normalize) (data image_rgb)) in
                bind (predict model image_normalized) (fun prediction =>
                bind (process_unet_output undefined_cast prediction)
                     (fun mask => cv2_resize mask original_size))))
            | _ => Raise (NotModelled "an image that is not of shape (h, w, 3)")
            end
      end
  end.

End Inference.

(** ** preprocessing.py: the white balance and the batch *)

Module WhiteBalance.

(** [cv2.xphoto], which only opencv-contrib provides. *)
Class XPhoto : Type :=
  { (** [hasattr(cv2, 'xphoto') and hasattr(cv2.xphoto, 'createSimpleWB')] *)
    createSimpleWB_available : bool;
    (** [cv2.xphoto.createSimpleWB().balanceWhite] *)
    balanceWhite : image -> result image }.

(** [apply_white_balance]: the [AttributeError] that the function raises
    itself when xphoto is missing, and a [cv2.error] of the balancer, are
    caught and answered with the gray-world algorithm. *)
Definition apply_white_balance `{XPhoto} (img : image) : result image :=
  if createSimpleWB_available then
    match balanceWhite img with
    | Ok img_wb => Ok img_wb
    | Raise (Cv2Error _) => Ok (gray_world_white_balance img)
    | Raise e => Raise e
    end
  else Ok (gray_world_white_balance img).

End WhiteBalance.

Module Batch.

(** [preprocess_batch(image_paths)], with [output_dir] left at [None]: the
    loop appends every image that [preprocess_leaf] returns and skips a
    [None]; an exception of [preprocess_leaf] leaves the loop. *)
Definition preprocess_batch {path} `{Cv2 path} (image_paths : list path)
  : result (list image) :=
  fold_left
    (fun results img_path =>
       bind results (fun results =>
       bind (preprocess_leaf img_path) (fun preprocessed =>
       match preprocessed with
       | Some img => Ok (results ++ [img])
       | None => Ok results
       end)))
    image_paths (Ok []).

End Batch.

(** ** api/analyze.py *)

Module Api.

(** [c in s]. *)
Fixpoint contains (c : Ascii.ascii) (s : string) : bool :=
  match s with
  | EmptyString => false
  | String a s' => if Ascii.eqb a c then true else contains c s'
  end.

(** [s.split(sep)] for a separator of one character. *)
Fixpoint split (sep : Ascii.ascii) (s : string) : list string :=
  match s with
  | EmptyString => [EmptyString]
  | String a s' =>
      if Ascii.eqb a sep then EmptyString :: split sep s'
      else match split sep s' with
           | head :: tail => String a head :: tail
           | [] => [String a EmptyString]
           end
  end.

(** The first lines of [decode_base64_image]:
    [if ',' in base64_string: base64_string = base64_string.split(',')[1]]. *)
Definition strip_data_url (base64_string : string) : string :=
  if contains ","%char base64_string then
    nth 1 (split ","%char base64_string) EmptyString
  else base64_string.

(** The serverless handler has the collaborators of the Flask one and a
    model that is loaded on the first request. *)
Class Serverless (path : Type) : Type :=
  { backend :: Backend path;
    (** the text of the exception raised inside [decode_base64_image] of
        this file on a value that is no string *)
    api_decode_error : json -> string;
    (** [get_model() is not None] *)
    model_loaded : bool }.

(** [decode_base64_image] of this file on a string: the data URL prefix
    is removed, the rest is the function of [app.py]. *)
Definition decode_base64_image {path} `{Serverless path}
           (base64_string : string) : result image :=
  App.decode_base64_image (strip_data_url base64_string).

(** The same on the value of the field: a value that is no string raises
    inside the [try], at [',' in base64_string], at [split] or at
    [base64.b64decode]. *)
Definition decode_value {path} `{Serverless path} (base64_image : json)
  : result image :=
  match base64_image with
  | JString base64_string => decode_base64_image base64_string
  | _ =>
      Raise (ValueError ("Failed to decode image: "
                         ++ api_decode_error base64_image))
  end.

(** The body of the [try] of [analyze]; the model is fetched after the
    leaf test. *)
Definition analyze_try {path} `{Serverless path} (get_json : result json)
  : result response :=
  bind get_json (fun data =>
  bind (if negb (truthy data) then Ok true
        else bind (Json.contains not_iterable "image" data)
                  (fun has_image => Ok (negb has_image)))
       (fun no_image =>
  if no_image then Ok (mk_response 400 (ErrorBody "No image provided"))
  else
    bind (getitem not_subscriptable "image" data) (fun base64_image =>
    bind (decode_value base64_image) (fun image_array =>
    bind (is_valid_leaf_image image_array) (fun is_leaf =>
    if negb is_leaf then Ok (mk_response 200 NotLeaf)
    else if negb model_loaded then
      Ok (mk_response 500 (ErrorBody "Model not loaded"))
    else
      let temp_path := imwrite_temp image_array in
      bind (preprocess_leaf temp_path) (fun preprocessed_image =>
      match preprocessed_image with
      | None => Raise (ValueError "Preprocessing failed")
      | Some preprocessed_image =>
          let preprocessed_path := imwrite_temp preprocessed_image in
          match predict_segmentation preprocessed_path with
          | None => Raise (ValueError "Segmentation failed")
          | Some mask =>
              Ok (mk_response 200 (Analysis mask (maskStats mask)))
          end
      end)))))).

(** [analyze]: any exception becomes a 500 response. *)
Definition analyze {path} `{Serverless path} (get_json : result json)
  : response :=
  match analyze_try get_json with
  | Ok r => r
  | Raise e => mk_response 500 (ErrorBody ("Analysis failed: " ++ str e))
  end.

End Api.


(** ** Vocabulary of the specification *)

(** The three values a mask may hold. *)
Definition mask_value (z : Z) : Prop := z = 0 \/ z = 128 \/ z = 255.

(** The three shape cases of the decoder: multi-class, binary two-channel,
    single-channel. *)
Definition multi_class_shape (s : list nat) : Prop :=
  length s = 3%nat /\ (3 <= last s 0)%nat.
Definition two_channel_shape (s : list nat) : Prop :=
  length s = 3%nat /\ last s 0%nat = 2%nat.
Definition single_channel_shape (s : list nat) : Prop :=
  length s = 2%nat \/ (length s = 3%nat /\ last s 0%nat = 1%nat).
Definition decodable_shape (s : list nat) : Prop :=
  multi_class_shape s \/ two_channel_shape s \/ single_channel_shape s.

(** The band of a value already scaled onto [0, 255], on integers and on
    rationals. *)
Definition band (z : Z) : Z :=
  if z <? 85 then 0 else if z <? 170 then 128 else 255.

Definition bandQ (q : Q) : Z :=
  if Qle_bool 85 q then (if Qle_bool 170 q then 255 else 128) else 0.

(** A float32 that denotes a number of the unit interval. *)
Definition in_unit_interval (v : spec_float) : Prop :=
  F32.isfinite v = true /\ (0 <= F32.SF2Q v)%Q /\ (F32.SF2Q v <= 1)%Q.

(** The class value of a class index, as the specification lists them. *)
Definition class_value (i : nat) : Z :=
  match i with
  | O => 0
  | S O => 128
  | _ => 255
  end.

(** No entry of the vector is a NaN. *)
Definition no_nan (v : list spec_float) : Prop :=
  Forall (fun x => F32.isnan x = false) v.

(** Entry [j] of a float vector. *)
Definition fnth (j : nat) (v : list spec_float) : spec_float :=
  nth j v S754_nan.

(** Channel [k] of the vector is strictly above every other channel. *)
Definition dominates (k : nat) (v : list spec_float) : Prop :=
  (k < length v)%nat /\
  forall j, (j < length v)%nat -> j <> k -> SFltb (fnth j v) (fnth k v) = true.

(** The vector of channel values of pixel [p] (row-major pixel index). *)
Definition lane (t : ndarray spec_float) (p : nat) : list spec_float :=
  firstn (last_dim t) (skipn (p * last_dim t) (data t)).

(** Pixel [p] of a mask (row-major pixel index). *)
Definition pixel (m : ndarray Z) (p : nat) : Z := nth p (data m) 0.

(** The tensor of shape (1, 1, 257) whose last channel is the largest. *)
Definition wide_tensor : ndarray spec_float :=
  mk_ndarray [1; 1; 257]%nat (repeat (S754_zero false) 256 ++ [F32.of_Z 1]).

(** The four-dimensional tensor with the single element 0.0. *)
Definition tensor_4d : ndarray spec_float :=
  mk_ndarray [1; 1; 1; 1]%nat [S754_zero false].

(** The record of a right shift stands for an inexact quotient when one of
    its round and sticky bits is set. *)
Definition inexact (mrs : shr_record) : bool := shr_r mrs || shr_s mrs.

(** The float32 nearest to [n / d]. *)
Definition f32_ratio (n d : Z) : spec_float :=
  SFdiv F32.prec F32.emax (F32.of_Z n) (F32.of_Z d).

(** The scaled value [v * 255], as the float32 the code computes. *)
Definition scaled (v : spec_float) : spec_float := F32.mul v (F32.of_Z 255).

(** The tensor of shape (2, 2) with the values 0.0, 0.3, 0.6 and 1.0. *)
Definition unit_square : ndarray spec_float :=
  mk_ndarray [2; 2]%nat
             [F32.of_Z 0; f32_ratio 3 10; f32_ratio 6 10; F32.of_Z 1].

(** The two coordinate computations of a round trip by the factor [k]
    over a side of length [n] come out right at the source coordinate [j]:
    [j] is sent to [j * k] on the way down and [j * k] back to [j] on the
    way up. *)
Definition coords_agree (coord : nat -> nat -> nat -> nat) (k n j : nat)
  : Prop :=
  coord (k * n)%nat n j = exact_coord (k * n) n j /\
  coord n (k * n)%nat (j * k)%nat = exact_coord n (k * n) (j * k).

(** The same as a test over every coordinate of a side of length [n],
    for the coordinate maps [down] and [up] of the two directions. *)
Definition coords_agree_b (down up : nat -> nat) (k n : nat) : bool :=
  forallb (fun j =>
             Nat.eqb (down j) (exact_coord (k * n) n j)
             && Nat.eqb (up (j * k)%nat) (exact_coord n (k * n) (j * k)))
          (seq 0 n).

Definition cv_coords_agree_b (k n : nat) : bool :=
  coords_agree_b (cv_coord (k * n) n) (cv_coord n (k * n)) k n.

(** The mask of one row holding 0 and 255. *)
Definition two_pixel_mask : ndarray Z := mk_ndarray [1; 2]%nat [0; 255].

(** The three channel means are equal. *)
Definition gray (img : image) : Prop :=
  (mean (map (channel 0) (data img)) == mean (map (channel 1) (data img)))%Q /\
  (mean (map (channel 1) (data img)) == mean (map (channel 2) (data img)))%Q.

(** A float pixel that still denotes the byte pixel it came from. *)
Definition denotes (p : Q * Q * Q) (q : rgb) : Prop :=
  (channel 0 p == inject_Z (channel 0 q))%Q /\
  (channel 1 p == inject_Z (channel 1 q))%Q /\
  (channel 2 p == inject_Z (channel 2 q))%Q.

(** The colour the specification gives a mask value. *)
Definition color_of (v : Z) : rgb :=
  if v =? 255 then (255, 0, 0)
  else if v =? 128 then (0, 255, 0)
  else (0, 0, 0).

(** ** Sample inputs *)

(** A (1, 2, 3) tensor: channels 1, 2, 2 at the first pixel and 1, 0, 0
    at the second. *)
Definition three_class_tensor : ndarray spec_float :=
  mk_ndarray [1; 2; 3]%nat (map F32.of_Z [1; 2; 2; 1; 0; 0]).

(** A (1, 2, 2) tensor: channels 1, 0 at the first pixel and 0, 1 at the
    second. *)
Definition two_channel_tensor : ndarray spec_float :=
  mk_ndarray [1; 2; 2]%nat (map F32.of_Z [1; 0; 0; 1]).

(** Two pixels whose channel means are all 20. *)
Definition gray_image : image :=
  mk_ndarray [1; 2]%nat [(10, 20, 30); (30, 20, 10)].

(** A mask of four pixels: one background, two healthy, one diseased. *)
Definition four_pixel_mask : ndarray Z :=
  mk_ndarray [2; 2]%nat [0; 128; 128; 255].

(** A mask with one value outside 0, 128, 255. *)
Definition odd_mask : ndarray Z := mk_ndarray [2; 2]%nat [0; 128; 255; 7].

(** The name CPython gives the type of a JSON value, and the texts of its
    exceptions, as samples. *)
Definition type_name (v : json) : string :=
  match v with
  | JNull => "NoneType"
  | JBool _ => "bool"
  | JInt _ => "int"
  | JFloat _ => "float"
  | JString _ => "str"
  | JArray _ => "list"
  | JObject _ => "dict"
  end.

Definition sample_not_iterable (v : json) : string :=
  "argument of type '" ++ type_name v ++ "' is not iterable".

Definition sample_not_subscriptable (v : json) : string :=
  match v with
  | JArray _ => "list indices must be integers or slices, not str"
  | JString _ => "string indices must be integers, not 'str'"
  | _ => "'" ++ type_name v ++ "' object is not subscriptable"
  end.

Definition sample_decode_error (v : json) : string :=
  "argument should be a bytes-like object or ASCII string, not '"
  ++ type_name v ++ "'".

(** The request whose JSON body is an object with the image and its type. *)
Definition image_request (base64_image : string) : result json :=
  Ok (JObject [("image", JString base64_image);
               ("mimeType", JString "image/jpeg")]%string).

(** A backend whose temporary file cannot be read back. *)
Definition unreadable_cv2 : Cv2 string :=
  {| imread := fun _ => None;
     apply_white_balance := fun img => Ok img;
     apply_clahe := fun img => Ok img;
     fastNlMeansDenoisingColored := fun img => Ok img;
     apply_sharpening := fun img => Ok img |}.

Definition unreadable_backend : Backend string :=
  {| cv2 := unreadable_cv2;
     decode_base64_image := fun _ => Ok gray_image;
     decode_error := sample_decode_error;
     not_iterable := sample_not_iterable;
     not_subscriptable := sample_not_subscriptable;
     is_valid_leaf_image := fun _ => Ok true;
     imwrite_temp := fun _ => "tmp.jpg"%string;
     predict_segmentation := fun _ => None |}.

(** ** Vocabulary of the further properties *)

(** The value that two channel values decode to: channel 0 wins the
    argmax when it is a NaN or when channel 1 is at most channel 0. *)
Definition two_way (c0 c1 : spec_float) : Z :=
  if F32.isnan c0 then 0 else if SFleb c1 c0 then 0 else 255.

(** The class value that three NaN-free channel values decode to: the
    largest channel wins and a tie goes to the lower channel. *)
Definition three_way (a b c : spec_float) : Z :=
  if SFleb b a then (if SFleb c a then 0 else 255)
  else (if SFleb c b then 128 else 255).

(** The test of [in_unit_interval]. *)
Definition in_unit_interval_b (v : spec_float) : bool :=
  F32.isfinite v && Qle_bool 0 (F32.SF2Q v) && Qle_bool (F32.SF2Q v) 1.

(** The byte that the gray-world balance gives the entry [c] of channel
    [i]: scaled by [mean_global / mean_channel] when the channel mean is
    positive, then clipped and cast. *)
Definition balance_entry (img : image) (i : nat) (c : Z) : Z :=
  let mean_channel := mean (map (channel i) (data img)) in
  to_uint8
    (clip (if negb (Qle_bool mean_channel 0)
           then (inject_Z c * (mean (entries (data img)) / mean_channel))%Q
           else inject_Z c)).

Definition balance_pixel (img : image) (p : rgb) : rgb :=
  (balance_entry img 0 (channel 0 p),
   balance_entry img 1 (channel 1 p),
   balance_entry img 2 (channel 2 p)).

(** The images that [preprocess_leaf] returns for the paths, in order. *)
Definition returned_images {path} `{Cv2 path} (image_paths : list path)
  : list image :=
  flat_map (fun p => match preprocess_leaf p with
                     | Ok (Some img) => [img]
                     | _ => []
                     end) image_paths.

(** The value of [data['image']] for the requests that get as far as
    decoding it: those whose body is a dict with the key [image]. *)
Definition image_value (get_json : result json) : option json :=
  match get_json with
  | Ok (JObject items) => lookup "image" items
  | _ => None
  end.

(** The request of one field that carries the value [v] as its image. *)
Definition request_of (v : json) : result json :=
  Ok (JObject [("image"%string, v)]).

(** The request as the serverless handler decodes it: the data URL prefix
    of an image string removed. *)
Definition strip_request (get_json : result json) : result json :=
  match image_value get_json with
  | Some (JString s) => request_of (JString (Api.strip_data_url s))
  | _ => get_json
  end.

(** ** Further sample inputs *)

(** A (1, 1, 3) tensor whose healthy channel is a NaN. *)
Definition nan_tensor : ndarray spec_float :=
  mk_ndarray [1; 1; 3]%nat [F32.of_Z 1; S754_nan; F32.of_Z 5].

(** A photograph of two rows and two columns. *)
Definition sample_photo : image :=
  mk_ndarray [2; 2]%nat [(10, 200, 30); (20, 180, 40); (90, 60, 30); (0, 0, 0)].

(** A mask of two rows and two columns with one diseased pixel. *)
Definition one_diseased_mask : ndarray Z :=
  mk_ndarray [2; 2]%nat [0; 255; 128; 0].

(** An image with a red channel that is zero everywhere. *)
Definition no_red_image : image :=
  mk_ndarray [1; 2]%nat [(0, 100, 50); (0, 50, 100)].

(** The only file of the sample file system is "leaf.jpg". *)
Definition sample_cv2 : Cv2 string :=
  {| imread := fun p => if String.eqb p "leaf.jpg" then Some sample_photo
                        else None;
     apply_white_balance := fun img => Ok (gray_world_white_balance img);
     apply_clahe := fun img => Ok img;
     fastNlMeansDenoisingColored := fun img => Ok img;
     apply_sharpening := fun img => Ok img |}.

(** An OpenCV whose sharpening step fails on every image. *)
Definition failing_cv2 : Cv2 string :=
  {| imread := fun p => if String.eqb p "leaf.jpg" then Some sample_photo
                        else None;
     apply_white_balance := fun img => Ok img;
     apply_clahe := fun img => Ok img;
     fastNlMeansDenoisingColored := fun img => Ok img;
     apply_sharpening := fun _ => Raise (Cv2Error "addWeighted") |}.

(** OpenCV without the contrib modules. *)
Definition no_xphoto : WhiteBalance.XPhoto :=
  {| WhiteBalance.createSimpleWB_available := false;
     WhiteBalance.balanceWhite := fun img => Ok img |}.

(** A network that answers every input with [three_class_tensor]. *)
Definition sample_unet : Inference.Unet unit :=
  {| Inference.resize_to_input := fun img => Ok img;
     Inference.predict := fun _ _ => Ok three_class_tensor;
     Inference.undefined_cast := fun _ => 0 |}.

(** A network whose output has no element. *)
Definition empty_unet : Inference.Unet unit :=
  {| Inference.resize_to_input := fun img => Ok img;
     Inference.predict := fun _ _ => Ok (mk_ndarray [0; 0; 3]%nat []);
     Inference.undefined_cast := fun _ => 0 |}.

(** A backend that decodes every request to [sample_photo], takes it for
    a leaf and segments it into [four_pixel_mask]. *)
Definition sample_backend : Backend string :=
  {| cv2 := sample_cv2;
     decode_base64_image := fun _ => Ok sample_photo;
     decode_error := sample_decode_error;
     not_iterable := sample_not_iterable;
     not_subscriptable := sample_not_subscriptable;
     is_valid_leaf_image := fun _ => Ok true;
     imwrite_temp := fun _ => "leaf.jpg"%string;
     predict_segmentation := fun _ => Some four_pixel_mask |}.

(** The backend whose segmentation is [predict_segmentation] with the
    network [sample_unet]. *)
Definition inference_backend : Backend string :=
  {| cv2 := sample_cv2;
     decode_base64_image := fun _ => Ok sample_photo;
     decode_error := sample_decode_error;
     not_iterable := sample_not_iterable;
     not_subscriptable := sample_not_subscriptable;
     is_valid_leaf_image := fun _ => Ok true;
     imwrite_temp := fun _ => "leaf.jpg"%string;
     predict_segmentation := fun p =>
       match Inference.predict_segmentation
               (H := sample_cv2) (H0 := sample_unet) p (Some tt) with
       | Ok r => r
       | Raise _ => None
       end |}.

(** The serverless function with and without its model file. *)
Definition loaded_serverless : Api.Serverless string :=
  {| Api.backend := sample_backend;
     Api.api_decode_error := sample_not_iterable;
     Api.model_loaded := true |}.

Definition cold_serverless : Api.Serverless string :=
  {| Api.backend := sample_backend;
     Api.api_decode_error := sample_not_iterable;
     Api.model_loaded := false |}.

(** A request whose body is the JSON string "my image". *)
Definition string_request : result json := Ok (JString "my image").

(** A request whose body is no JSON. *)
Definition text_request : result json :=
  Raise (HTTPException "415 Unsupported Media Type").

(** ** Lists and arrays *)

Lemma masked_assign_cons {A B} (sel : A -> bool) (v : B) a src d dst :
  masked_assign sel v (a :: src) (d :: dst)
  = (if sel a then v else d) :: masked_assign sel v src dst.
Proof. reflexivity. Qed.

Lemma three_class_band (mask : list Z) : three_class mask = map band mask.
Proof.
  unfold three_class, zeros_like.
  induction mask as [|a mask IH]; [reflexivity|].
  cbn [length repeat map]. rewrite !masked_assign_cons. rewrite IH.
  f_equal. unfold band.
  destruct (a <? 85) eqn:E1, (a <? 170) eqn:E2, (85 <=? a) eqn:E3,
    (170 <=? a) eqn:E4; cbn; try reflexivity; lia.
Qed.

Lemma band_mask_value z : mask_value (band z).
Proof.
  unfold band, mask_value.
  destruct (z <? 85); [auto|]. destruct (z <? 170); auto.
Qed.

Lemma length_lanes {A} c n (l : list A) : length (lanes c n l) = n.
Proof.
  revert l. induction n as [|n IH]; intro l; cbn; [reflexivity|].
  now rewrite IH.
Qed.

Lemma lanes_short {A} c n (l : list A) :
  Forall (fun px => (length px <= c)%nat) (lanes c n l).
Proof.
  revert l. induction n as [|n IH]; intro l; cbn; constructor.
  - rewrite length_firstn. lia.
  - apply IH.
Qed.

Lemma size_of_app s1 s2 : size_of (s1 ++ s2) = (size_of s1 * size_of s2)%nat.
Proof.
  induction s1 as [|d s1 IH].
  - change (size_of ([] ++ s2)) with (size_of s2).
    change (size_of []) with 1%nat. lia.
  - change (size_of ((d :: s1) ++ s2)) with (d * size_of (s1 ++ s2))%nat.
    change (size_of (d :: s1)) with (d * size_of s1)%nat.
    rewrite IH. lia.
Qed.

Lemma size_of_squeeze s : size_of (squeeze_shape s) = size_of s.
Proof.
  induction s as [|d s IH]; [reflexivity|].
  change (size_of (d :: s)) with (d * size_of s)%nat.
  cbn [squeeze_shape filter].
  destruct (Nat.eqb_spec d 1) as [->|Hd]; cbn [negb].
  - fold (squeeze_shape s). rewrite IH. lia.
  - fold (squeeze_shape s).
    change (size_of (d :: squeeze_shape s))
      with (d * size_of (squeeze_shape s))%nat.
    now rewrite IH.
Qed.

Lemma size_of_removelast s :
  s <> [] -> size_of s = (size_of (removelast s) * last s 0)%nat.
Proof.
  intro Hs. rewrite (app_removelast_last 0%nat Hs) at 1.
  rewrite size_of_app.
  change (size_of [last s 0%nat]) with (last s 0 * 1)%nat. lia.
Qed.

(** ** argmax *)

Lemma argmax_from_lt mp mi i ip :
  (mi < i)%nat -> (argmax_from mp mi i ip < i + length ip)%nat.
Proof.
  revert mp mi i. induction ip as [|x ip IH]; intros mp mi i Hi; cbn.
  - lia.
  - destruct (negb (SFleb x mp)).
    + destruct (F32.isnan x); [lia|].
      specialize (IH x i (S i)). lia.
    + specialize (IH mp mi (S i)). lia.
Qed.

Lemma argmax_lt v : v <> [] -> (argmax v < length v)%nat.
Proof.
  destruct v as [|mp rest]; [congruence|]. intros _. cbn.
  destruct (F32.isnan mp); [lia|].
  pose proof (argmax_from_lt mp 0 1 rest). lia.
Qed.

Lemma argmax_le v : (argmax v <= length v - 1)%nat.
Proof.
  destruct v as [|mp rest]; [cbn; lia|].
  assert (H : mp :: rest <> []) by congruence.
  apply argmax_lt in H. lia.
Qed.

(** Over two channels the second one wins exactly when it is not below or
    equal to the first, which is not a NaN. *)
Lemma argmax_pair a b :
  argmax [a; b]
  = if F32.isnan a then 0%nat else if SFleb b a then 0%nat else 1%nat.
Proof.
  cbn. destruct (F32.isnan a); [reflexivity|].
  destruct (SFleb b a); cbn; [reflexivity|].
  now destruct (F32.isnan b).
Qed.

(** ** The decoder *)

Lemma dict_get_mapping x : mask_value (dict_get mapping x 255).
Proof.
  unfold mask_value, mapping. cbn [dict_get].
  destruct (0 =? x); [auto|]. destruct (1 =? x); [auto|].
  destruct (2 =? x); auto.
Qed.

Lemma mask_value_uint8 z : mask_value z -> int_to_uint8 z = z.
Proof. unfold int_to_uint8; intros [-> | [-> | ->]]; reflexivity. Qed.

Lemma process_unet_output_total uc (t : ndarray spec_float) :
  size t <> 0%nat -> exists m, process_unet_output uc t = Ok m.
Proof.
  intro Hs. unfold process_unet_output.
  destruct (Nat.eqb_spec (size t) 0) as [E|_]; [contradiction|].
  destruct (Nat.eqb (ndim t) 3 && Nat.leb 3 (last_dim t)); [eauto|].
  destruct (Nat.eqb (ndim t) 3 && Nat.eqb (last_dim t) 2); eauto.
Qed.

Lemma process_unet_output_values uc (t : ndarray spec_float) m :
  process_unet_output uc t = Ok m -> Forall mask_value (data m).
Proof.
  unfold process_unet_output.
  destruct (Nat.eqb (size t) 0); [discriminate|].
  destruct (Nat.eqb (ndim t) 3 && Nat.leb 3 (last_dim t)).
  { intros [= <-]. cbn. rewrite Forall_map. apply Forall_forall. intros x _.
    rewrite mask_value_uint8; apply dict_get_mapping. }
  destruct (Nat.eqb (ndim t) 3 && Nat.eqb (last_dim t) 2).
  { intros [= <-]. cbn. rewrite !Forall_map.
    eapply Forall_impl; [|apply (lanes_short 2)].
    intros px Hpx. cbn beta in Hpx |- *.
    pose proof (argmax_le px) as Ha.
    assert (Hc : argmax px = 0%nat \/ argmax px = 1%nat) by lia.
    destruct Hc as [-> | ->]; cbv; auto. }
  intros [= <-]. cbn. rewrite three_class_band, Forall_map.
  apply Forall_forall. intros x _. apply band_mask_value.
Qed.

Lemma process_unet_output_wf uc (t : ndarray spec_float) m :
  wf t -> decodable_shape (shape t) ->
  process_unet_output uc t = Ok m -> wf m.
Proof.
  intros Hwf Hshape. unfold process_unet_output.
  destruct (Nat.eqb (size t) 0); [discriminate|].
  destruct (Nat.eqb (ndim t) 3 && Nat.leb 3 (last_dim t)).
  { intros [= <-]. unfold wf. cbn. now rewrite !length_map, length_lanes. }
  destruct (Nat.eqb (ndim t) 3 && Nat.eqb (last_dim t) 2).
  { intros [= <-]. unfold wf. cbn. now rewrite !length_map, length_lanes. }
  intros [= <-]. unfold wf. cbn.
  rewrite three_class_band, !length_map.
  destruct (Nat.eqb (ndim t) 3); cbn; [|exact Hwf].
  rewrite size_of_squeeze. exact Hwf.
Qed.

(** C1. For every well-formed tensor whose shape is one of the three
    decoding cases, [process_unet_output] returns a mask as soon as the
    tensor has an element, and every mask it returns is well-formed and
    holds only the values 0, 128 and 255. *)
Theorem decode_three_values uc (t : ndarray spec_float) :
  wf t -> decodable_shape (shape t) ->
  (size t <> 0%nat -> exists m, process_unet_output uc t = Ok m) /\
  (forall m, process_unet_output uc t = Ok m ->
             wf m /\ Forall mask_value (data m)).
Proof.
  intros Hwf Hshape. split.
  - apply process_unet_output_total.
  - intros m Hm. split.
    + eapply process_unet_output_wf; eauto.
    + eapply process_unet_output_values; eauto.
Qed.

(** The theorem on a small three-class tensor. *)
Lemma decode_three_values_witness :
  exists m,
    process_unet_output (fun _ => 0) three_class_tensor = Ok m /\
    data m = [128; 0] /\ Forall mask_value (data m).
Proof.
  assert (Hwf : wf three_class_tensor) by reflexivity.
  assert (Hshape : decodable_shape (shape three_class_tensor)).
  { left. split; [reflexivity | cbn; lia]. }
  destruct (decode_three_values (fun _ => 0) three_class_tensor Hwf Hshape)
    as [Htotal Hvalues].
  exists (mk_ndarray [1; 2]%nat [128; 0]).
  split; [reflexivity|]. split; [reflexivity|].
  apply (Hvalues (mk_ndarray [1; 2]%nat [128; 0])). reflexivity.
Defined.

(** ** The order of [SFcompare] *)

Ltac sf_compare_cases :=
  repeat match goal with
    | H : context [Z.compare ?a ?b] |- _ => destruct (Z.compare_spec a b)
    | |- context [Z.compare ?a ?b] => destruct (Z.compare_spec a b)
    | H : context [Pos.compare_cont Eq ?a ?b] |- _ =>
        change (Pos.compare_cont Eq a b) with (Pos.compare a b) in H;
        destruct (Pos.compare_spec a b)
    | |- context [Pos.compare_cont Eq ?a ?b] =>
        change (Pos.compare_cont Eq a b) with (Pos.compare a b);
        destruct (Pos.compare_spec a b)
    end;
  subst; cbn in *; try discriminate; try reflexivity; try lia.

Ltac sf_destruct x :=
  let s := fresh "s" in
  let m := fresh "m" in
  let e := fresh "e" in
  destruct x as [s | s | | s m e]; try destruct s.

Lemma SFltb_leb a b : SFltb a b = true -> SFleb a b = true.
Proof.
  unfold SFltb, SFleb. destruct (SFcompare a b) as [[]|]; congruence.
Qed.

Lemma SFltb_not_nan a b :
  SFltb a b = true -> F32.isnan a = false /\ F32.isnan b = false.
Proof.
  unfold SFltb. sf_destruct a; sf_destruct b; cbn; auto; discriminate.
Qed.

Lemma SFltb_not_leb a b : SFltb a b = true -> SFleb b a = false.
Proof.
  unfold SFltb, SFleb, SFcompare.
  sf_destruct a; sf_destruct b; try discriminate; try reflexivity;
    intro H; sf_compare_cases.
Qed.

Lemma SFleb_refl a : F32.isnan a = false -> SFleb a a = true.
Proof.
  unfold SFleb, SFcompare. sf_destruct a; try discriminate; try reflexivity;
    intros _; sf_compare_cases.
Qed.

Lemma not_SFleb_ltb a b :
  F32.isnan a = false -> F32.isnan b = false ->
  SFleb a b = false -> SFltb b a = true.
Proof.
  unfold SFltb, SFleb, SFcompare.
  sf_destruct a; sf_destruct b; try discriminate; try reflexivity;
    intros _ _ H; sf_compare_cases.
Qed.

Lemma SFleb_ltb_trans a b c :
  SFleb a b = true -> SFltb b c = true -> SFltb a c = true.
Proof.
  unfold SFltb, SFleb, SFcompare.
  sf_destruct a; sf_destruct b; try discriminate;
    sf_destruct c; try discriminate; try reflexivity;
    intros H1 H2; sf_compare_cases.
Qed.

(** ** [argmax] is the first index of the maximum *)

Lemma argmax_from_first_max ip : forall pre mp mi,
  no_nan (pre ++ ip) ->
  (mi < length pre)%nat -> fnth mi pre = mp ->
  (forall j, (j < length pre)%nat -> SFleb (fnth j pre) mp = true) ->
  (forall j, (j < mi)%nat -> SFltb (fnth j pre) mp = true) ->
  let r := argmax_from mp mi (length pre) ip in
  (r < length (pre ++ ip))%nat /\
  (forall j, (j < length (pre ++ ip))%nat ->
             SFleb (fnth j (pre ++ ip)) (fnth r (pre ++ ip)) = true) /\
  (forall j, (j < r)%nat ->
             SFltb (fnth j (pre ++ ip)) (fnth r (pre ++ ip)) = true).
Proof.
  unfold fnth.
  induction ip as [|x rest IH]; intros pre mp mi Hnan Hmi Hmp Hle Hlt; cbn zeta.
  - cbn [argmax_from]. rewrite app_nil_r. rewrite Hmp. auto.
  - cbn [argmax_from].
    assert (Hx : F32.isnan x = false).
    { unfold no_nan in Hnan. rewrite Forall_app in Hnan.
      destruct Hnan as [_ Hn]. now inversion Hn. }
    assert (Hmpn : F32.isnan mp = false).
    { unfold no_nan in Hnan. rewrite Forall_app in Hnan.
      destruct Hnan as [Hn _]. rewrite Forall_forall in Hn.
      apply Hn. rewrite <- Hmp. now apply nth_In. }
    assert (Hsplit : pre ++ x :: rest = (pre ++ [x]) ++ rest)
      by now rewrite <- app_assoc.
    assert (Hlen : length (pre ++ [x]) = S (length pre))
      by (rewrite length_app; cbn; lia).
    destruct (SFleb x mp) eqn:Hcmp; cbn [negb].
    + rewrite Hsplit. rewrite <- Hlen.
      apply IH.
      * now rewrite <- Hsplit.
      * lia.
      * rewrite app_nth1 by lia. exact Hmp.
      * intros j Hj. rewrite Hlen in Hj.
        destruct (Nat.eq_dec j (length pre)) as [-> | Hne].
        -- rewrite app_nth2 by lia. now rewrite Nat.sub_diag.
        -- rewrite app_nth1 by lia. apply Hle. lia.
      * intros j Hj. rewrite app_nth1 by lia. now apply Hlt.
    + rewrite Hx.
      assert (Hgt : SFltb mp x = true) by now apply not_SFleb_ltb.
      rewrite Hsplit. rewrite <- Hlen.
      apply IH.
      * now rewrite <- Hsplit.
      * lia.
      * rewrite app_nth2 by lia. now rewrite Nat.sub_diag.
      * intros j Hj. rewrite Hlen in Hj.
        destruct (Nat.eq_dec j (length pre)) as [-> | Hne].
        -- rewrite app_nth2 by lia. rewrite Nat.sub_diag. cbn.
           now apply SFleb_refl.
        -- rewrite app_nth1 by lia. apply SFltb_leb.
           apply SFleb_ltb_trans with mp; [apply Hle; lia | exact Hgt].
      * intros j Hj. rewrite app_nth1 by lia.
        apply SFleb_ltb_trans with mp; [apply Hle; lia | exact Hgt].
Qed.

(** On a vector without NaN, [argmax] returns an index of a maximal entry,
    and every entry before it is strictly smaller: ties go to the lowest
    index. *)
Lemma argmax_first_max v :
  v <> [] -> no_nan v ->
  (argmax v < length v)%nat /\
  (forall j, (j < length v)%nat ->
             SFleb (fnth j v) (fnth (argmax v) v) = true) /\
  (forall j, (j < argmax v)%nat ->
             SFltb (fnth j v) (fnth (argmax v) v) = true).
Proof.
  destruct v as [|mp rest]; [congruence|]. intros _ Hnan.
  assert (Hmp : F32.isnan mp = false) by now inversion Hnan.
  unfold argmax. rewrite Hmp.
  apply (argmax_from_first_max rest [mp] mp 0); cbn; auto.
  - intros j Hj. assert (j = 0%nat) as -> by lia. now apply SFleb_refl.
  - intros j Hj. lia.
Qed.

(** A channel that is strictly above all the others is the argmax. *)
Lemma argmax_dominant k v : dominates k v -> argmax v = k.
Proof.
  intros [Hk Hdom].
  destruct v as [|a [|b rest]].
  - cbn in Hk. lia.
  - cbn in Hk. assert (k = 0%nat) as -> by lia. cbn.
    now destruct (F32.isnan a).
  - set (v := a :: b :: rest) in *.
    assert (Hnan : no_nan v).
    { apply Forall_forall. intros x Hx.
      destruct (In_nth v x S754_nan Hx) as [j [Hj Hjx]].
      destruct (Nat.eq_dec j k) as [-> | Hne].
      - assert (Hother : exists j', (j' < length v)%nat /\ j' <> k).
        { destruct k; [exists 1%nat | exists 0%nat]; cbn; split; lia. }
        destruct Hother as [j' [Hj' Hne']].
        specialize (Hdom j' Hj' Hne'). apply SFltb_not_nan in Hdom.
        unfold fnth in Hdom. rewrite Hjx in Hdom. tauto.
      - specialize (Hdom j Hj Hne). apply SFltb_not_nan in Hdom.
        unfold fnth in Hdom. rewrite Hjx in Hdom. tauto. }
    assert (Hv : v <> []) by (unfold v; congruence).
    destruct (argmax_first_max v Hv Hnan) as [Hi [Hmax _]].
    destruct (Nat.eq_dec (argmax v) k) as [E | Hne]; [exact E | exfalso].
    specialize (Hdom _ Hi Hne). apply SFltb_not_leb in Hdom.
    rewrite (Hmax k Hk) in Hdom. discriminate.
Qed.

(** ** Pixels and channels of a tensor *)

Lemma nth_lanes {A} c n : forall i (l : list A),
  (i < n)%nat -> nth i (lanes c n l) [] = firstn c (skipn (i * c) l).
Proof.
  induction n as [|n IH]; intros i l Hi; [lia|].
  destruct i as [|i]; cbn [lanes nth].
  - reflexivity.
  - rewrite IH by lia. rewrite skipn_skipn. do 2 f_equal. lia.
Qed.

Lemma skipn_cons_nth {A} (d : A) : forall k (l : list A),
  (k < length l)%nat -> skipn k l = nth k l d :: skipn (S k) l.
Proof.
  induction k as [|k IH]; intros [|a l] Hk; cbn in *; try lia.
  - reflexivity.
  - now rewrite (IH l) by lia.
Qed.

Lemma nth_map_lanes {A B} (f : list A -> B) (d : B) c n i (l : list A) :
  (i < n)%nat ->
  nth i (map f (lanes c n l)) d = f (firstn c (skipn (i * c) l)).
Proof.
  intro Hi.
  rewrite (nth_indep _ d (f [])) by now rewrite length_map, length_lanes.
  rewrite map_nth. now rewrite nth_lanes.
Qed.

Lemma uint8_small i : (i < 256)%nat -> int_to_uint8 (Z.of_nat i) = Z.of_nat i.
Proof. intro H. unfold int_to_uint8. apply Z.mod_small. lia. Qed.

Lemma mapping_class_value i :
  int_to_uint8 (dict_get mapping (Z.of_nat i) 255) = class_value i.
Proof.
  rewrite mask_value_uint8 by apply dict_get_mapping.
  unfold mapping. cbn [dict_get].
  destruct i as [|[|[|i]]]; try reflexivity.
  destruct (Z.eqb_spec 0 (Z.of_nat (S (S (S i))))); [lia|].
  destruct (Z.eqb_spec 1 (Z.of_nat (S (S (S i))))); [lia|].
  now destruct (Z.eqb_spec 2 (Z.of_nat (S (S (S i))))).
Qed.

(** The multi-class branch: the pixel is the class value of the argmax
    index, once that index has gone through [astype(np.uint8)]. *)
Lemma multi_class_decode uc (t : ndarray spec_float) h w c :
  shape t = [h; w; c] -> (3 <= c)%nat -> size t <> 0%nat ->
  exists m,
    process_unet_output uc t = Ok m /\ shape m = [h; w] /\
    length (data m) = (h * w)%nat /\
    forall p, (p < h * w)%nat ->
      pixel m p
      = class_value (Z.to_nat (int_to_uint8 (Z.of_nat (argmax (lane t p))))).
Proof.
  intros Hshape Hc Hsize. unfold process_unet_output.
  destruct (Nat.eqb_spec (size t) 0) as [E|_]; [contradiction|].
  unfold ndim, last_dim, lane, last_dim. rewrite Hshape.
  cbn [length last removelast Nat.eqb andb].
  destruct (Nat.leb_spec 3 c) as [_|Hlt]; [|lia].
  eexists. split; [reflexivity|]. cbn [shape data].
  split; [reflexivity|].
  assert (Hhw : size_of [h; w] = (h * w)%nat) by (cbn; lia).
  rewrite Hhw. split.
  - now rewrite !length_map, length_lanes.
  - intros p Hp. unfold pixel. cbn [data]. rewrite map_map.
    rewrite nth_map_lanes by exact Hp.
    set (i := argmax _).
    assert (Hrange : 0 <= int_to_uint8 (Z.of_nat i) < 256)
      by (unfold int_to_uint8; apply Z.mod_pos_bound; lia).
    rewrite <- (Z2Nat.id (int_to_uint8 (Z.of_nat i))) at 1 by lia.
    apply mapping_class_value.
Qed.

(** With at most 256 channels the cast keeps the index. *)
Lemma multi_class_decode_small uc (t : ndarray spec_float) h w c :
  shape t = [h; w; c] -> (3 <= c <= 256)%nat -> size t <> 0%nat ->
  exists m,
    process_unet_output uc t = Ok m /\ shape m = [h; w] /\
    length (data m) = (h * w)%nat /\
    forall p, (p < h * w)%nat -> pixel m p = class_value (argmax (lane t p)).
Proof.
  intros Hshape Hc Hsize.
  destruct (multi_class_decode uc t h w c Hshape ltac:(lia) Hsize)
    as [m [Hm [Hs [Hl Hpx]]]].
  exists m. repeat split; auto.
  intros p Hp. rewrite (Hpx p Hp). f_equal.
  pose proof (argmax_le (lane t p)) as Ha.
  assert (Hlen : (length (lane t p) <= c)%nat).
  { unfold lane, last_dim. rewrite Hshape. cbn [last].
    rewrite length_firstn. lia. }
  rewrite uint8_small by lia. apply Nat2Z.id.
Qed.

(** A channel that dominates at every pixel gives a constant mask,
    whatever the number of channels: all 128 for channel 1 and all 255 for
    channel 2. *)
Lemma multi_class_dominant uc (t : ndarray spec_float) h w c k :
  shape t = [h; w; c] -> (3 <= c)%nat -> size t <> 0%nat ->
  (k < 256)%nat ->
  (forall p, (p < h * w)%nat -> dominates k (lane t p)) ->
  exists m,
    process_unet_output uc t = Ok m /\ shape m = [h; w] /\
    data m = repeat (class_value k) (h * w).
Proof.
  intros Hshape Hc Hsize Hk Hdom.
  destruct (multi_class_decode uc t h w c Hshape Hc Hsize)
    as [m [Hm [Hs [Hl Hpx]]]].
  exists m. repeat split; auto.
  apply (nth_ext _ _ 0 0).
  - now rewrite repeat_length.
  - intros p Hp. rewrite Hl in Hp. rewrite nth_repeat_lt by exact Hp.
    fold (pixel m p). rewrite (Hpx p Hp).
    rewrite (argmax_dominant k) by now apply Hdom.
    rewrite uint8_small by lia. now rewrite Nat2Z.id.
Qed.

(** C2, at the input where the code departs from it: the argmax of the
    single pixel of [wide_tensor] is channel 256, an index above 3, and
    the decoded pixel is 0 instead of 255, since [astype(np.uint8)] turns
    the index 256 into 0 before the class mapping is applied. *)
Theorem multi_class_index_wraps uc :
  wf wide_tensor /\ multi_class_shape (shape wide_tensor) /\
  dominates 256 (lane wide_tensor 0) /\
  argmax (lane wide_tensor 0) = 256%nat /\
  class_value 256 = 255 /\
  process_unet_output uc wide_tensor = Ok (mk_ndarray [1; 1]%nat [0]).
Proof.
  assert (Hdom : dominates 256 (lane wide_tensor 0)).
  { split; [vm_compute; lia|]. intros j Hj Hne.
    change (length (lane wide_tensor 0)) with 257%nat in Hj.
    assert (Hj' : (j < 256)%nat) by lia. clear Hj Hne.
    do 256 (destruct j as [|j]; [vm_compute; reflexivity|]). lia. }
  split; [reflexivity|]. split; [split; [reflexivity | vm_compute; lia]|].
  split; [exact Hdom|]. split; [now apply argmax_dominant|].
  split; reflexivity.
Qed.

(** ** The binary two-channel branch *)

Lemma lane_pair (t : ndarray spec_float) h w p :
  wf t -> shape t = [h; w; 2]%nat -> (p < h * w)%nat ->
  lane t p = [fnth (2 * p) (data t); fnth (2 * p + 1) (data t)].
Proof.
  intros Hwf Hshape Hp. unfold lane, last_dim, fnth. rewrite Hshape. cbn [last].
  assert (Hlen : length (data t) = (h * w * 2)%nat).
  { rewrite Hwf. rewrite Hshape. cbn. lia. }
  replace (p * 2)%nat with (2 * p)%nat by lia.
  rewrite (skipn_cons_nth S754_nan (2 * p)) by lia.
  rewrite (skipn_cons_nth S754_nan (S (2 * p))) by lia.
  cbn [firstn]. do 2 f_equal. f_equal. lia.
Qed.

(** C5. On a tensor of shape (h, w, 2) the decoder returns the (h, w)
    mask whose pixel is 0 where channel 0 wins the argmax, that is where
    channel 0 is a NaN or channel 1 is at most channel 0, and 255 where
    channel 1 wins; one of the two always holds, and no pixel is 128. *)
Theorem two_channel_decode uc (t : ndarray spec_float) h w :
  wf t -> shape t = [h; w; 2]%nat -> size t <> 0%nat ->
  exists m,
    process_unet_output uc t = Ok m /\ shape m = [h; w] /\
    length (data m) = (h * w)%nat /\
    (forall p, (p < h * w)%nat ->
       let c0 := fnth (2 * p) (data t) in
       let c1 := fnth (2 * p + 1) (data t) in
       pixel m p = two_way c0 c1 /\
       ((argmax [c0; c1] = 0%nat /\ pixel m p = 0) \/
        (argmax [c0; c1] = 1%nat /\ pixel m p = 255))) /\
    ~ In 128 (data m).
Proof.
  intros Hwf Hshape Hsize. unfold process_unet_output.
  destruct (Nat.eqb_spec (size t) 0) as [E|_]; [contradiction|].
  unfold ndim, last_dim. rewrite Hshape.
  cbn [length last removelast Nat.eqb Nat.leb andb].
  eexists. split; [reflexivity|]. cbn [shape data].
  split; [reflexivity|].
  assert (Hhw : size_of [h; w] = (h * w)%nat) by (cbn; lia).
  rewrite Hhw.
  assert (Hpx : forall p, (p < h * w)%nat ->
            nth p (map (fun x => int_to_uint8 (x * 255))
                     (map (fun px => int_to_uint8 (Z.of_nat (argmax px)))
                        (lanes 2 (h * w) (data t)))) 0
            = int_to_uint8 (int_to_uint8 (Z.of_nat (argmax (lane t p))) * 255)).
  { intros p Hp. rewrite map_map. rewrite nth_map_lanes by exact Hp.
    unfold lane, last_dim. rewrite Hshape. reflexivity. }
  assert (Hcase : forall p, (p < h * w)%nat ->
            (argmax (lane t p) = 0%nat /\
             int_to_uint8 (int_to_uint8 (Z.of_nat (argmax (lane t p))) * 255) = 0)
            \/ (argmax (lane t p) = 1%nat /\
             int_to_uint8 (int_to_uint8 (Z.of_nat (argmax (lane t p))) * 255)
             = 255)).
  { intros p Hp. pose proof (argmax_le (lane t p)) as Ha.
    rewrite (lane_pair t h w p Hwf Hshape Hp) in *. cbn [length] in Ha.
    assert (Hc : argmax [fnth (2 * p) (data t); fnth (2 * p + 1) (data t)] = 0%nat
                 \/ argmax [fnth (2 * p) (data t); fnth (2 * p + 1) (data t)]
                    = 1%nat) by lia.
    destruct Hc as [Hc | Hc]; rewrite Hc; [left | right]; split; reflexivity. }
  split; [now rewrite !length_map, length_lanes|]. split.
  - intros p Hp. cbv zeta. unfold pixel. cbn [data]. rewrite (Hpx p Hp).
    rewrite <- (lane_pair t h w p Hwf Hshape Hp). split.
    + rewrite (lane_pair t h w p Hwf Hshape Hp), argmax_pair.
      unfold two_way.
      destruct (F32.isnan (fnth (2 * p) (data t))); [reflexivity|].
      now destruct (SFleb (fnth (2 * p + 1) (data t))
                          (fnth (2 * p) (data t))).
    + apply Hcase, Hp.
  - intro Hin. apply (In_nth _ _ 0) in Hin. destruct Hin as [p [Hp Hv]].
    rewrite !length_map, length_lanes in Hp. rewrite (Hpx p Hp) in Hv.
    destruct (Hcase p Hp) as [[_ H0] | [_ H1]]; congruence.
Qed.

(** The theorem on a small two-channel tensor: channel 0 is the larger
    one at the first pixel and channel 1 at the second. *)
Lemma two_channel_decode_witness :
  exists m,
    process_unet_output (fun _ => 0) two_channel_tensor = Ok m /\
    shape m = [1; 2]%nat /\ pixel m 0 = 0 /\ pixel m 1 = 255 /\
    ~ In 128 (data m).
Proof.
  destruct (two_channel_decode (fun _ => 0) two_channel_tensor 1 2)
    as [m [Hm [Hs [_ [Hpx Hno]]]]].
  - reflexivity.
  - reflexivity.
  - discriminate.
  - exists m. split; [exact Hm|]. split; [exact Hs|].
    destruct (Hpx 0%nat ltac:(lia)) as [H0 _].
    destruct (Hpx 1%nat ltac:(lia)) as [H1 _].
    split; [rewrite H0; reflexivity|].
    split; [rewrite H1; reflexivity | exact Hno].
Defined.

(** ** Shapes outside the three cases *)

Lemma undecodable_rank (s : list nat) :
  ~ decodable_shape s -> size_of s <> 0%nat ->
  length s <> 2%nat /\ length s <> 3%nat.
Proof.
  intros Hnot Hsize. split.
  - intro H2. apply Hnot. right. right. left. exact H2.
  - intro H3.
    assert (Hs : s <> []) by (intros ->; discriminate).
    pose proof (size_of_removelast s Hs) as Hprod.
    assert (Hlast : last s 0%nat <> 0%nat).
    { intro E. rewrite E, Nat.mul_0_r in Hprod. contradiction. }
    apply Hnot. unfold decodable_shape, multi_class_shape, two_channel_shape,
      single_channel_shape.
    destruct (Nat.eq_dec (last s 0%nat) 1); [right; right; right; tauto|].
    destruct (Nat.eq_dec (last s 0%nat) 2); [right; left; tauto|].
    left. split; [exact H3 | lia].
Qed.

(** C4 as stated fails: a four-dimensional tensor matches none of the three
    cases, and the decoder returns an array for it. *)
Lemma four_dimensional_is_decoded :
  wf tensor_4d /\ ~ decodable_shape (shape tensor_4d) /\
  process_unet_output (fun _ => 0) tensor_4d
  = Ok (mk_ndarray [1; 1; 1; 1]%nat [0]).
Proof.
  split; [reflexivity|]. split; [|reflexivity].
  unfold decodable_shape, multi_class_shape, two_channel_shape,
    single_channel_shape. cbn. lia.
Qed.

(** C4, amended. On a tensor whose shape is none of the three cases the
    decoder has no shape error.  If the tensor has an element, its rank is
    neither 2 nor 3, and the single-channel branch returns the array of the
    same shape with every element scaled, cast and banded.  If it has no
    element, the call fails with the ValueError of [min] on an empty
    array. *)
Theorem undecodable_shape_falls_through uc (t : ndarray spec_float) :
  ~ decodable_shape (shape t) ->
  (size t <> 0%nat ->
   ndim t <> 2%nat /\ ndim t <> 3%nat /\
   process_unet_output uc t
   = Ok (mk_ndarray (shape t)
           (map (fun v => band (F32.to_uint8 uc (F32.mul v (F32.of_Z 255))))
                (data t)))) /\
  (size t = 0%nat ->
   process_unet_output uc t
   = Raise (ValueError
       "zero-size array to reduction operation minimum which has no identity")).
Proof.
  intro Hnot. split.
  - intro Hsize. destruct (undecodable_rank _ Hnot Hsize) as [H2 H3].
    split; [exact H2|]. split; [exact H3|].
    unfold process_unet_output.
    destruct (Nat.eqb_spec (size t) 0) as [E|_]; [contradiction|].
    destruct (Nat.eqb_spec (ndim t) 3) as [E|_]; [contradiction|].
    cbn [andb]. now rewrite three_class_band, map_map.
  - intro Hsize. unfold process_unet_output. now rewrite Hsize.
Qed.

(** The theorem on the four-dimensional tensor. *)
Lemma undecodable_shape_falls_through_witness :
  process_unet_output (fun _ => 0) tensor_4d
  = Ok (mk_ndarray [1; 1; 1; 1]%nat [0]).
Proof.
  assert (Hnot : ~ decodable_shape (shape tensor_4d)).
  { unfold decodable_shape, multi_class_shape, two_channel_shape,
      single_channel_shape. cbn. lia. }
  destruct (undecodable_shape_falls_through (fun _ => 0) tensor_4d Hnot)
    as [Hdecoded _].
  destruct Hdecoded as [_ [_ Hm]]; [discriminate|].
  rewrite Hm. reflexivity.
Defined.

(** ** Rounding of [v * 255] in binary32 *)

Lemma iter_pos_nat {A} (f : A -> A) p : forall x,
  iter_pos f p x = Nat.iter (Pos.to_nat p) f x.
Proof.
  induction p as [p IH | p IH |]; intro x; cbn [iter_pos].
  - rewrite !IH. rewrite Pos2Nat.inj_xI.
    rewrite <- Nat.iter_add. rewrite <- Nat.iter_succ_r.
    f_equal. lia.
  - rewrite !IH. rewrite Pos2Nat.inj_xO. rewrite <- Nat.iter_add.
    f_equal. lia.
  - reflexivity.
Qed.

Lemma shr_1_nonneg m r s :
  0 <= m ->
  shr_1 (Build_shr_record m r s)
  = Build_shr_record (m / 2) (Z.odd m) (r || s).
Proof.
  intro Hm. unfold shr_1.
  destruct m as [|[p|p|]|p]; try lia; try reflexivity.
  - f_equal. rewrite Pos2Z.inj_xI. apply Z.div_unique with 1; lia.
  - f_equal. rewrite Pos2Z.inj_xO. apply Z.div_unique with 0; lia.
Qed.

Lemma shr_iter M : 0 <= M -> forall n,
  let mrs := Nat.iter n shr_1 (Build_shr_record M false false) in
  shr_m mrs = M / 2 ^ Z.of_nat n /\
  (inexact mrs = true -> M mod 2 ^ Z.of_nat n <> 0).
Proof.
  intros HM n. induction n as [|n IH]; cbn zeta in *.
  - cbn. split; [now rewrite Z.div_1_r | discriminate].
  - rewrite Nat.iter_succ.
    destruct (Nat.iter n shr_1 _) as [m r s] eqn:E.
    destruct IH as [Hm Hin]. cbn [shr_m] in Hm.
    unfold inexact in Hin. cbn [shr_r shr_s] in Hin.
    assert (H0 : 0 <= m) by (subst m; apply Z.div_pos; lia).
    rewrite shr_1_nonneg by exact H0.
    unfold inexact. cbn [shr_m shr_r shr_s].
    rewrite Nat2Z.inj_succ, Z.pow_succ_r by lia.
    assert (Hp : 0 < 2 ^ Z.of_nat n) by (apply Z.pow_pos_nonneg; lia).
    split.
    + subst m. rewrite Z.div_div by lia. f_equal. lia.
    + intros Hor Hmod.
      assert (Hdiv : M mod 2 ^ Z.of_nat n = 0).
      { apply Z.mod_divide in Hmod; [|lia]. apply Z.mod_divide; [lia|].
        destruct Hmod as [k Hk]. exists (k * 2). lia. }
      apply orb_true_iff in Hor. destruct Hor as [Hodd | Hrs].
      * (* m odd but M divisible by 2^(n+1) *)
        apply Z.mod_divide in Hmod; [|lia]. destruct Hmod as [k Hk].
        assert (m = 2 * k).
        { subst m. rewrite Hk.
          replace (k * (2 * 2 ^ Z.of_nat n))
            with ((2 * k) * 2 ^ Z.of_nat n) by ring.
          apply Z.div_mul. lia. }
        subst m. rewrite H in Hodd. rewrite Z.odd_mul in Hodd.
        cbn in Hodd. discriminate.
      * apply Hin; assumption.
Qed.

Lemma round_nearest_even_cases mrs :
  let m' := round_nearest_even (shr_m mrs) (loc_of_shr_record mrs) in
  m' = shr_m mrs \/ (m' = shr_m mrs + 1 /\ inexact mrs = true).
Proof.
  destruct mrs as [m [] []]; cbn; unfold inexact; cbn; auto.
  destruct (Z.even m); auto.
Qed.

Lemma digits2_pos_bounds m :
  2 ^ (Zpos (digits2_pos m) - 1) <= Zpos m < 2 ^ Zpos (digits2_pos m).
Proof.
  induction m as [m IH | m IH |]; cbn [digits2_pos].
  - rewrite Pos2Z.inj_succ.
    replace (Z.succ (Z.pos (digits2_pos m)) - 1)
      with (Z.succ (Z.pos (digits2_pos m) - 1)) by lia.
    rewrite !Z.pow_succ_r by lia. lia.
  - rewrite Pos2Z.inj_succ.
    replace (Z.succ (Z.pos (digits2_pos m)) - 1)
      with (Z.succ (Z.pos (digits2_pos m) - 1)) by lia.
    rewrite !Z.pow_succ_r by lia. lia.
  - cbn. lia.
Qed.

Lemma Zdigits2_le m b :
  0 <= m -> 0 <= b -> m < 2 ^ b -> Zdigits2 m <= b.
Proof.
  intros Hm Hb Hlt. destruct m as [|q|q]; cbn [Zdigits2]; try lia.
  pose proof (digits2_pos_bounds q) as [Hlo _].
  destruct (Z_le_gt_dec (Zpos (digits2_pos q)) b) as [|Hgt];
    [assumption|exfalso].
  assert (2 ^ b <= 2 ^ (Zpos (digits2_pos q) - 1))
    by (apply Z.pow_le_mono_r; lia).
  lia.
Qed.

Lemma scaled_255_lt e : e <= -16 -> 255 * 2 ^ (- e) < 2 ^ (8 - e).
Proof.
  intro He. replace (8 - e) with (8 + - e) by lia.
  rewrite Z.pow_add_r by lia. change (2 ^ 8) with 256.
  assert (0 < 2 ^ (- e)) by (apply Z.pow_pos_nonneg; lia). lia.
Qed.

Lemma shr_fexp_bound m e :
  0 <= m -> e <= -16 -> m <= 255 * 2 ^ (- e) ->
  let '(mrs, e') := shr_fexp 24 128 m e loc_Exact in
  e' <= -16 /\ 0 <= shr_m mrs /\ shr_m mrs <= 255 * 2 ^ (- e') /\
  (inexact mrs = true -> shr_m mrs < 255 * 2 ^ (- e')).
Proof.
  intros Hm He Hle. unfold shr_fexp. cbn [shr_record_of_loc].
  assert (Hd : Zdigits2 m + e <= 8).
  { pose proof (scaled_255_lt e He).
    assert (Zdigits2 m <= 8 - e) by (apply Zdigits2_le; lia). lia. }
  set (n := fexp 24 128 (Zdigits2 m + e) - e).
  assert (Hn : e + n <= -16).
  { unfold n, fexp, emin. lia. }
  clearbody n. unfold shr. destruct n as [|p|p].
  - unfold inexact. cbn [shr_m shr_r shr_s orb].
    repeat split; try lia; discriminate.
  - rewrite iter_pos_nat.
    destruct (shr_iter m Hm (Pos.to_nat p)) as [Hq Hin].
    rewrite positive_nat_Z in Hq, Hin.
    set (mrs := Nat.iter _ _ _) in *. clearbody mrs.
    assert (Hp : 0 < 2 ^ Zpos p) by (apply Z.pow_pos_nonneg; lia).
    assert (Hk : 255 * 2 ^ (- e) = (255 * 2 ^ (- (e + Zpos p))) * 2 ^ Zpos p).
    { rewrite <- Z.mul_assoc, <- Z.pow_add_r by lia. do 2 f_equal. lia. }
    set (K := 255 * 2 ^ (- (e + Zpos p))) in *.
    split; [exact Hn|]. rewrite Hq. split; [apply Z.div_pos; lia|].
    split.
    + apply Z.div_le_upper_bound; lia.
    + intro Hi. specialize (Hin Hi).
      apply Z.div_lt_upper_bound; [lia|].
      assert (m <> K * 2 ^ Zpos p).
      { intro E. apply Hin. rewrite E. apply Z.mod_mul. lia. }
      lia.
  - unfold inexact. cbn [shr_m shr_r shr_s orb].
    repeat split; try lia; discriminate.
Qed.

Lemma round_le_255 M E :
  E <= -16 -> Zpos M <= 255 * 2 ^ (- E) ->
  match binary_round_aux 24 128 false (Zpos M) E loc_Exact with
  | S754_zero false => True
  | S754_finite false m e => e <= -16 /\ Zpos m <= 255 * 2 ^ (- e)
  | _ => False
  end.
Proof.
  intros HE HM. unfold binary_round_aux.
  pose proof (shr_fexp_bound (Zpos M) E ltac:(lia) HE HM) as H1.
  destruct (shr_fexp 24 128 (Zpos M) E loc_Exact) as [mrs' e'].
  destruct H1 as [He' [H0 [Hle Hlt]]].
  pose proof (round_nearest_even_cases mrs') as Hr. cbn zeta in Hr.
  set (m1 := round_nearest_even (shr_m mrs') (loc_of_shr_record mrs')) in *.
  assert (Hm1 : 0 <= m1 <= 255 * 2 ^ (- e')).
  { destruct Hr as [-> | [-> Hi]]; [lia|]. specialize (Hlt Hi). lia. }
  clearbody m1.
  pose proof (shr_fexp_bound m1 e' ltac:(lia) He' ltac:(lia)) as H2.
  destruct (shr_fexp 24 128 m1 e' loc_Exact) as [mrs'' e''].
  destruct H2 as [He'' [H0' [Hle' _]]].
  destruct (shr_m mrs'') as [|m2|m2]; [exact I| |lia].
  destruct (Z.leb_spec e'' (128 - 24)); [|lia].
  split; assumption.
Qed.

(** The value of a non-negative finite float against an integer. *)
Lemma SF2Q_le_1 m e :
  (F32.SF2Q (S754_finite false m e) <= 1)%Q -> e <= 0 /\ Zpos m <= 2 ^ (- e).
Proof.
  unfold F32.SF2Q, cond_Zopp. destruct e as [|p|k].
  - unfold Qle. cbn. lia.
  - unfold Qle. cbn [inject_Z Qnum Qden]. intro H.
    assert (2 ^ 1 <= 2 ^ Zpos p) by (apply Z.pow_le_mono_r; lia).
    change (2 ^ 1) with 2 in *. exfalso. nia.
  - unfold Qle. cbn [Qnum Qden]. rewrite Pos2Z.inj_pow. cbn [Z.opp]. lia.
Qed.

Lemma SF2Q_nonneg_sign s m e :
  (0 <= F32.SF2Q (S754_finite s m e))%Q -> s = false.
Proof.
  destruct s; [|reflexivity]. unfold F32.SF2Q, cond_Zopp.
  destruct e as [|p|k]; unfold Qle; cbn [inject_Z Qnum Qden]; intro H; exfalso.
  - cbn in H. lia.
  - assert (0 < 2 ^ Zpos p) by (apply Z.pow_pos_nonneg; lia). nia.
  - cbn in H. lia.
Qed.

(** [v * 255] for [v] in the unit interval: zero, or a positive float
    [m * 2^e] with a negative exponent and at most 255. *)
Lemma scale_unit_interval v :
  in_unit_interval v ->
  match F32.mul v (F32.of_Z 255) with
  | S754_zero _ => True
  | S754_finite false m e => e <= -16 /\ Zpos m <= 255 * 2 ^ (- e)
  | _ => False
  end.
Proof.
  intros [Hfin [H0 H1]].
  change (F32.of_Z 255) with (S754_finite false 16711680 (-16)).
  unfold F32.mul, F32.prec, F32.emax.
  destruct v as [s | s | | s m e]; try discriminate; cbn [SFmul].
  - exact I.
  - apply SF2Q_nonneg_sign in H0. subst s.
    apply SF2Q_le_1 in H1. destruct H1 as [He Hm]. cbn [xorb].
    assert (Hb : Zpos (m * 16711680) <= 255 * 2 ^ (- (e + -16))).
    { replace (- (e + -16)) with (16 + - e) by lia.
      rewrite Z.pow_add_r by lia. change (2 ^ 16) with 65536.
      rewrite Pos2Z.inj_mul. lia. }
    pose proof (round_le_255 (m * 16711680) (e + -16) ltac:(lia) Hb) as Hr.
    destruct (binary_round_aux 24 128 false _ _ _) as [[] | | | [] m' e'];
      auto.
Qed.

Lemma band_of_quotient m k :
  Zpos m <= 255 * 2 ^ Zpos k ->
  band (Zpos m / 2 ^ Zpos k) = bandQ (Zpos m # 2 ^ k).
Proof.
  intro Hle. unfold band, bandQ, Qle_bool. cbn [Qnum Qden].
  rewrite Pos2Z.inj_pow.
  assert (Hp : 0 < 2 ^ Zpos k) by (apply Z.pow_pos_nonneg; lia).
  destruct (Z.ltb_spec (Zpos m / 2 ^ Zpos k) 85) as [H85 | H85].
  - destruct (Z.leb_spec (85 * 2 ^ Zpos k) (Zpos m * 1)) as [H | H];
      [|reflexivity].
    exfalso. assert (85 <= Zpos m / 2 ^ Zpos k)
      by (apply Z.div_le_lower_bound; lia). lia.
  - destruct (Z.leb_spec (85 * 2 ^ Zpos k) (Zpos m * 1)) as [H | H].
    + destruct (Z.ltb_spec (Zpos m / 2 ^ Zpos k) 170) as [H170 | H170].
      * destruct (Z.leb_spec (170 * 2 ^ Zpos k) (Zpos m * 1)) as [H' | H'];
          [|reflexivity].
        exfalso. assert (170 <= Zpos m / 2 ^ Zpos k)
          by (apply Z.div_le_lower_bound; lia). lia.
      * destruct (Z.leb_spec (170 * 2 ^ Zpos k) (Zpos m * 1)) as [H' | H'];
          [reflexivity|].
        exfalso. assert (Zpos m / 2 ^ Zpos k < 170)
          by (apply Z.div_lt_upper_bound; lia). lia.
    + exfalso. assert (Zpos m / 2 ^ Zpos k < 85)
        by (apply Z.div_lt_upper_bound; lia). lia.
Qed.

(** The pixel the single-channel branch computes from a value of the unit
    interval is the band of the scaled value, which lies in [0, 255]. *)
Lemma scaled_pixel uc v :
  in_unit_interval v ->
  let s := F32.mul v (F32.of_Z 255) in
  (0 <= F32.SF2Q s)%Q /\ (F32.SF2Q s <= 255)%Q /\
  band (F32.to_uint8 uc s) = bandQ (F32.SF2Q s).
Proof.
  intro Hv. pose proof (scale_unit_interval v Hv) as Hs. cbn zeta.
  destruct (F32.mul v (F32.of_Z 255)) as [s | s | | s m e]; try contradiction.
  - cbn. repeat split; discriminate.
  - destruct s; [contradiction|]. destruct Hs as [He Hm].
    destruct e as [|p|k]; try lia. cbn [Z.opp] in Hm.
    assert (Hp : 0 < 2 ^ Zpos k) by (apply Z.pow_pos_nonneg; lia).
    unfold F32.SF2Q, F32.to_uint8, F32.trunc, cond_Zopp.
    assert (Hq : 0 <= Zpos m / 2 ^ Zpos k < 256).
    { split; [apply Z.div_pos; lia|]. apply Z.div_lt_upper_bound; lia. }
    destruct (Z.leb_spec 0 (Zpos m / 2 ^ Zpos k)); [|lia].
    destruct (Z.ltb_spec (Zpos m / 2 ^ Zpos k) 256); [|lia].
    cbn [andb]. split; [|split].
    + unfold Qle. cbn. lia.
    + unfold Qle. cbn [Qnum Qden]. rewrite Pos2Z.inj_pow. lia.
    + now apply band_of_quotient.
Qed.

(** ** The single-channel branch *)

(** C3. On a tensor of rank 2, or of rank 3 with last dimension 1, whose
    values lie in [0, 1], the decoder returns the array (squeezed in the
    second case) in which every value [v] has become the band of its
    scaled value [v * 255]: 0 below 85, 128 from 85 up to but not
    including 170, and 255 from 170 on; the scaled values lie in [0, 255].
    The (2, 2) tensor of 0.0, 0.3, 0.6, 1.0 has the scaled values 0, 76.5,
    153 and 255 and decodes to 0, 0, 128, 255. *)
Theorem single_channel_decode :
  (forall uc (t : ndarray spec_float),
      wf t -> single_channel_shape (shape t) -> size t <> 0%nat ->
      Forall in_unit_interval (data t) ->
      exists m,
        process_unet_output uc t = Ok m /\
        shape m = (if Nat.eqb (ndim t) 3 then squeeze_shape (shape t)
                   else shape t) /\
        data m = map (fun v => bandQ (F32.SF2Q (scaled v))) (data t) /\
        Forall (fun v => (0 <= F32.SF2Q (scaled v))%Q /\
                         (F32.SF2Q (scaled v) <= 255)%Q) (data t)) /\
  (forall uc,
      Forall2 Qeq (map (fun v => F32.SF2Q (scaled v)) (data unit_square))
              [0%Q; (153 # 2)%Q; 153%Q; 255%Q] /\
      process_unet_output uc unit_square
      = Ok (mk_ndarray [2; 2]%nat [0; 0; 128; 255])).
Proof.
  split.
  - intros uc t Hwf Hshape Hsize Hunit. unfold process_unet_output.
    destruct (Nat.eqb_spec (size t) 0) as [E|_]; [contradiction|].
    assert (Hbranch :
              (Nat.eqb (ndim t) 3 && Nat.leb 3 (last_dim t) = false) /\
              (Nat.eqb (ndim t) 3 && Nat.eqb (last_dim t) 2 = false)).
    { unfold ndim, last_dim.
      destruct Hshape as [H2 | [H3 H1]].
      - rewrite H2. auto.
      - rewrite H3, H1. auto. }
    destruct Hbranch as [-> ->].
    eexists. split; [reflexivity|]. cbn [shape data].
    split; [now destruct (Nat.eqb (ndim t) 3)|].
    assert (Hdata : data (if Nat.eqb (ndim t) 3 then squeeze t else t) = data t)
      by now destruct (Nat.eqb (ndim t) 3).
    rewrite Hdata. rewrite three_class_band, map_map. split.
    + apply map_ext_in. intros v Hin.
      rewrite Forall_forall in Hunit.
      now apply (scaled_pixel uc v (Hunit v Hin)).
    + eapply Forall_impl; [|exact Hunit].
      intros v Hv. destruct (scaled_pixel uc v Hv) as [H0 [H255 _]]. auto.
  - intro uc. split.
    + cbn [map data unit_square].
      repeat constructor; vm_compute; reflexivity.
    + vm_compute. reflexivity.
Qed.

(** The theorem at the (2, 2) tensor. *)
Lemma single_channel_decode_witness :
  exists m,
    process_unet_output (fun _ => 0) unit_square = Ok m /\
    shape m = [2; 2]%nat /\ data m = [0; 0; 128; 255].
Proof.
  destruct single_channel_decode as [Hgen _].
  destruct (Hgen (fun _ => 0) unit_square) as [m [Hm [Hs [Hd _]]]].
  - reflexivity.
  - left. reflexivity.
  - discriminate.
  - repeat constructor; vm_compute; discriminate.
  - exists m. split; [exact Hm|]. split; [exact Hs | exact Hd].
Defined.

(** ** Nearest-neighbour resizing *)

Lemma length_rows {A} (f : nat -> nat -> A) w a h :
  length (flat_map (fun y => map (f y) (seq 0 w)) (seq a h)) = (h * w)%nat.
Proof.
  revert a. induction h as [|h IH]; intro a; [reflexivity|].
  cbn [seq flat_map]. rewrite length_app, length_map, length_seq, IH. lia.
Qed.

Lemma length_grid {A} h w (f : nat -> nat -> A) :
  length (grid h w f) = (h * w)%nat.
Proof. apply length_rows. Qed.

Lemma nth_rows {A} (f : nat -> nat -> A) (d : A) w h : forall a y x,
  (y < h)%nat -> (x < w)%nat ->
  nth (y * w + x) (flat_map (fun y => map (f y) (seq 0 w)) (seq a h)) d
  = f (a + y)%nat x.
Proof.
  induction h as [|h IH]; intros a y x Hy Hx; [lia|].
  cbn [seq flat_map]. destruct y as [|y].
  - rewrite app_nth1 by (rewrite length_map, length_seq; lia).
    cbn [Nat.mul Nat.add].
    rewrite (nth_indep _ d (f a 0%nat))
      by (rewrite length_map, length_seq; lia).
    rewrite map_nth, seq_nth by lia. f_equal; lia.
  - rewrite app_nth2 by (rewrite length_map, length_seq; lia).
    rewrite length_map, length_seq.
    replace (S y * w + x - w)%nat with (y * w + x)%nat by lia.
    rewrite IH by lia. f_equal. lia.
Qed.

Lemma nth_grid {A} (f : nat -> nat -> A) (d : A) h w y x :
  (y < h)%nat -> (x < w)%nat -> nth (y * w + x) (grid h w f) d = f y x.
Proof. intros Hy Hx. unfold grid. now rewrite nth_rows. Qed.

Lemma grid_ext {A} (f g : nat -> nat -> A) h w :
  (forall y x, (y < h)%nat -> (x < w)%nat -> f y x = g y x) ->
  grid h w f = grid h w g.
Proof.
  intro Hfg. unfold grid. rewrite !flat_map_concat_map. f_equal.
  apply map_ext_in. intros y Hy.
  apply map_ext_in. intros x Hx. rewrite in_seq in Hy, Hx. apply Hfg; lia.
Qed.

Lemma grid_of_entries {A} (d : A) h w (l : list A) :
  length l = (h * w)%nat ->
  grid h w (fun y x => nth (y * w + x) l d) = l.
Proof.
  intro Hl. apply (nth_ext _ _ d d).
  - now rewrite length_grid.
  - intros i Hi. rewrite length_grid in Hi.
    assert (Hw : w <> 0%nat) by (intros ->; lia).
    pose proof (Nat.div_mod_eq i w) as Hdm.
    pose proof (Nat.mod_upper_bound i w Hw) as Hmod.
    assert (Hdiv : (i / w < h)%nat) by (apply Nat.Div0.div_lt_upper_bound; lia).
    replace i with (i / w * w + i mod w)%nat at 1 by lia.
    rewrite nth_grid by assumption. f_equal. lia.
Qed.

Lemma exact_coord_down k n j :
  (0 < n)%nat -> exact_coord (k * n) n j = (j * k)%nat.
Proof.
  intro Hn. unfold exact_coord.
  replace (j * (k * n))%nat with (j * k * n)%nat by lia.
  apply Nat.div_mul. lia.
Qed.

Lemma exact_coord_up k n j :
  (0 < n)%nat -> (0 < k)%nat -> exact_coord n (k * n) (j * k) = j.
Proof.
  intros Hn Hk. unfold exact_coord.
  replace (j * k * n)%nat with (j * (k * n))%nat by lia.
  apply Nat.div_mul. lia.
Qed.

(** The resized image, entry by entry. *)
Lemma resize_nearest_grid coord sh sw dh dw (px : list Z) :
  resize_nearest coord sh sw dh dw px
  = grid dh dw
         (fun y x =>
            nth (Nat.min (coord sh dh y) (sh - 1) * sw
                 + Nat.min (coord sw dw x) (sw - 1))%nat px 0).
Proof.
  unfold resize_nearest, grid. cbv zeta. apply flat_map_ext. intro y.
  now rewrite map_map.
Qed.

(** Enlarging by an integer factor and sampling back picks every source
    pixel again, when the coordinates are the exact ones at the sampled
    points. *)
Lemma resize_nearest_round_trip coord h w k (px : list Z) :
  length px = (h * w)%nat -> (0 < k)%nat ->
  (forall y, (y < h)%nat -> coords_agree coord k h y) ->
  (forall x, (x < w)%nat -> coords_agree coord k w x) ->
  resize_nearest coord (k * h) (k * w) h w
                 (resize_nearest coord h w (k * h) (k * w) px)
  = px.
Proof.
  intros Hl Hk Hrows Hcols. rewrite !resize_nearest_grid.
  transitivity (grid h w (fun y x => nth (y * w + x) px 0));
    [|now apply grid_of_entries].
  apply grid_ext. intros y x Hy Hx.
  destruct (Hrows y Hy) as [Hyd Hyu]. destruct (Hcols x Hx) as [Hxd Hxu].
  rewrite exact_coord_down in Hyd, Hxd by lia.
  rewrite exact_coord_up in Hyu, Hxu by lia.
  rewrite Hyd, Hxd.
  assert (Hyb : (y * k < k * h)%nat) by nia.
  assert (Hxb : (x * k < k * w)%nat) by nia.
  rewrite (Nat.min_l (y * k)) by lia. rewrite (Nat.min_l (x * k)) by lia.
  rewrite nth_grid by assumption.
  rewrite Hyu, Hxu.
  rewrite (Nat.min_l y) by lia. rewrite (Nat.min_l x) by lia. reflexivity.
Qed.

(** With exact coordinates the round trip holds for every factor. *)
Lemma exact_round_trip h w k (px : list Z) :
  length px = (h * w)%nat -> (0 < h)%nat -> (0 < w)%nat -> (0 < k)%nat ->
  resize_nearest exact_coord (k * h) (k * w) h w
                 (resize_nearest exact_coord h w (k * h) (k * w) px)
  = px.
Proof.
  intros Hl Hh Hw Hk. apply resize_nearest_round_trip; auto;
    intros j Hj; split; reflexivity.
Qed.

(** For the factors 1 to 8 OpenCV's coordinates are the exact ones on
    every side of up to 16 pixels. *)
Lemma forallb_seq (f : nat -> bool) a n j :
  forallb f (seq a n) = true -> (a <= j < a + n)%nat -> f j = true.
Proof.
  intros H Hj. rewrite forallb_forall in H. apply H. apply in_seq. exact Hj.
Qed.

Lemma cv_coords_small_table :
  forallb (fun k => forallb (cv_coords_agree_b k) (seq 1 16)) (seq 1 8) = true.
Proof. vm_compute. reflexivity. Qed.

Lemma small_factors_agree k n j :
  (1 <= k <= 8)%nat -> (n <= 16)%nat -> (j < n)%nat ->
  coords_agree cv_coord k n j.
Proof.
  intros Hk Hn Hj.
  pose proof (forallb_seq _ 1 8 k cv_coords_small_table ltac:(lia)) as H2.
  cbv beta in H2.
  pose proof (forallb_seq _ 1 16 n H2 ltac:(lia)) as H1.
  unfold cv_coords_agree_b, coords_agree_b in H1.
  pose proof (forallb_seq _ 0 n j H1 ltac:(lia)) as H3.
  cbv beta in H3. apply andb_true_iff in H3.
  destruct H3 as [Hd Hu]. apply Nat.eqb_eq in Hd, Hu.
  unfold coords_agree. split; [exact Hd | exact Hu].
Qed.

(** C7 as stated fails for the factor 49: in doubles [49 * (1. / 49.)] is
    below 1, so column 49 of the enlarged mask copies source column 0, and
    that column is the one sampled for pixel 1 on the way back. *)
Lemma resize_round_trip_fails_at_49 :
  wf two_pixel_mask /\ Forall mask_value (data two_pixel_mask) /\
  cv_coord 2 (49 * 2) 49 = 0%nat /\
  exists up,
    cv2_resize two_pixel_mask (49 * 2, 49 * 1)%nat = Ok up /\
    cv2_resize up (2, 1)%nat = Ok (mk_ndarray [1; 2]%nat [0; 0]) /\
    mk_ndarray [1; 2]%nat [0; 0] <> two_pixel_mask.
Proof.
  split; [reflexivity|].
  split; [repeat (apply Forall_cons; [unfold mask_value; lia|]); constructor|].
  split; [vm_compute; reflexivity|].
  eexists. split; [vm_compute; reflexivity|].
  split; [vm_compute; reflexivity | discriminate].
Qed.

(** C7, amended. A mask of positive height and width, enlarged by an
    integer factor [k >= 1] with nearest-neighbour sampling and resized
    back to its own size the same way, is returned unchanged, and both
    calls succeed, provided the source coordinates that OpenCV computes in
    doubles at the sampled rows and columns are the exact ones. *)
Theorem resize_round_trip (mask : ndarray Z) h w k :
  wf mask -> shape mask = [h; w] -> (0 < h)%nat -> (0 < w)%nat ->
  (1 <= k)%nat ->
  (forall y, (y < h)%nat -> coords_agree cv_coord k h y) ->
  (forall x, (x < w)%nat -> coords_agree cv_coord k w x) ->
  exists up,
    cv2_resize mask (k * w, k * h)%nat = Ok up /\
    shape up = [k * h; k * w]%nat /\
    cv2_resize up (w, h) = Ok mask.
Proof.
  intros Hwf Hshape Hh Hw Hk Hrows Hcols.
  destruct mask as [s px]. cbn in Hshape. subst s.
  unfold wf in Hwf. cbn in Hwf.
  assert (Hl : length px = (h * w)%nat) by lia.
  unfold cv2_resize at 1. cbn [shape data as_mat].
  destruct (Nat.eqb_spec h 0); [lia|]. destruct (Nat.eqb_spec w 0); [lia|].
  destruct (Nat.eqb_spec (k * w) 0); [nia|].
  destruct (Nat.eqb_spec (k * h) 0); [nia|].
  cbn [orb]. eexists. split; [reflexivity|]. split; [reflexivity|].
  unfold cv2_resize. cbn [shape data as_mat].
  destruct (Nat.eqb_spec (k * h) 0); [nia|].
  destruct (Nat.eqb_spec (k * w) 0); [nia|].
  destruct (Nat.eqb_spec h 0); [lia|]. destruct (Nat.eqb_spec w 0); [lia|].
  cbn [orb]. now rewrite resize_nearest_round_trip by (auto; lia).
Qed.

(** The theorem on a 2 x 2 mask enlarged three times. *)
Lemma resize_round_trip_witness :
  exists up,
    cv2_resize (mk_ndarray [2; 2]%nat [0; 128; 255; 0]) (6, 6)%nat = Ok up /\
    shape up = [6; 6]%nat /\
    cv2_resize up (2, 2)%nat = Ok (mk_ndarray [2; 2]%nat [0; 128; 255; 0]).
Proof.
  apply (resize_round_trip (mk_ndarray [2; 2]%nat [0; 128; 255; 0]) 2 2 3).
  - reflexivity.
  - reflexivity.
  - lia.
  - lia.
  - lia.
  - intros y Hy. destruct y as [|[|y]]; [split; vm_compute; reflexivity ..|lia].
  - intros x Hx. destruct x as [|[|x]]; [split; vm_compute; reflexivity ..|lia].
Defined.

(** ** Gray-world white balance *)

Lemma mean_fraction l p :
  Z.of_nat (length l) = Zpos p -> (mean l == sum l # p)%Q.
Proof.
  intro Hp. unfold mean. rewrite Hp. unfold Qeq, Qdiv, Qmult, Qinv, inject_Z.
  cbn [Qnum Qden]. lia.
Qed.

Lemma sum_entries px :
  sum (entries px)
  = sum (map (channel 0) px) + sum (map (channel 1) px)
    + sum (map (channel 2) px).
Proof.
  induction px as [|[[r g] b] px IH]; [reflexivity|].
  unfold entries in *. cbn [flat_map map app sum fold_right channel] in *.
  fold (sum (flat_map (fun p => [channel 0 p; channel 1 p; channel 2 p]) px)).
  rewrite IH. unfold sum. lia.
Qed.

Lemma length_entries px : length (entries px) = (3 * length px)%nat.
Proof.
  induction px as [|p px IH]; [reflexivity|].
  unfold entries in *. cbn [flat_map app length]. rewrite IH. lia.
Qed.

Lemma gray_global_mean (img : image) i :
  data img <> [] -> gray img -> (i < 3)%nat ->
  (mean (entries (data img)) == mean (map (channel i) (data img)))%Q.
Proof.
  intros Hne [H01 H12] Hi.
  set (px := data img) in *.
  assert (Hn : exists p, Z.of_nat (length px) = Zpos p).
  { destruct px as [|a px']; [congruence|]. cbn [length].
    exists (Pos.of_succ_nat (length px')). reflexivity. }
  destruct Hn as [p Hp].
  assert (Hlen : forall j,
             Z.of_nat (length (map (channel (A:=Z) j) px)) = Zpos p).
  { intro j. now rewrite length_map. }
  rewrite (mean_fraction _ p (Hlen 0%nat)) in H01.
  rewrite (mean_fraction _ p (Hlen 1%nat)) in H01, H12.
  rewrite (mean_fraction _ p (Hlen 2%nat)) in H12.
  rewrite (mean_fraction _ p (Hlen i)).
  assert (Hp3 : Z.of_nat (length (entries px)) = Zpos (3 * p)).
  { rewrite length_entries. lia. }
  rewrite (mean_fraction _ _ Hp3). rewrite sum_entries.
  unfold Qeq in *. cbn [Qnum Qden] in *.
  destruct i as [|[|[|i]]]; try lia; nia.
Qed.

Lemma to_uint8_clip x v :
  (x == inject_Z v)%Q -> 0 <= v <= 255 -> to_uint8 (clip x) = v.
Proof.
  intros Hx Hv. unfold clip.
  destruct (Qle_bool x 0) eqn:E0.
  - apply Qle_bool_iff in E0. rewrite Hx in E0.
    unfold Qle in E0. cbn in E0. assert (v = 0) as -> by lia. reflexivity.
  - destruct (Qle_bool 255 x) eqn:E255.
    + apply Qle_bool_iff in E255. rewrite Hx in E255.
      unfold Qle in E255. cbn in E255. assert (v = 255) as -> by lia.
      reflexivity.
    + unfold to_uint8.
      assert (H0 : Qle_bool 0 x = true).
      { apply Qle_bool_iff. rewrite Hx. unfold Qle. cbn. lia. }
      rewrite H0. rewrite Hx. rewrite Qfloor_Z. apply Z.mod_small. lia.
Qed.

Lemma balance_channel_gray (img : image) fl i :
  data img <> [] -> gray img -> (i < 3)%nat ->
  Forall2 denotes fl (data img) ->
  Forall2 denotes
    (balance_channel img (mean (entries (data img))) fl i) (data img).
Proof.
  intros Hne Hgray Hi Hfl. unfold balance_channel.
  pose proof (gray_global_mean img i Hne Hgray Hi) as Hmean.
  set (mc := mean (map (channel i) (data img))) in *.
  set (mg := mean (entries (data img))) in *.
  destruct (Qle_bool mc 0) eqn:E; cbn [negb]; [exact Hfl|].
  assert (Hmc : ~ (mc == 0)%Q).
  { intro H0. rewrite H0 in E. discriminate. }
  assert (Hone : (mg / mc == 1)%Q).
  { rewrite Hmean. unfold Qdiv. now apply Qmult_inv_r. }
  clearbody mc mg. clear -Hfl Hone Hi. revert Hfl.
  generalize (data img). intros px Hfl.
  induction Hfl as [|[[r g] b] q fl px Hd _ IH];
    cbn [map]; constructor; [|exact IH].
  destruct Hd as [H0 [H1 H2]]. unfold denotes.
  destruct i as [|[|[|i]]]; try lia; cbn [channel set_channel] in *;
    repeat split; try assumption; rewrite Hone, Qmult_1_r; assumption.
Qed.

Lemma denotes_inject px :
  Forall2 denotes (map (map_pixel inject_Z) px) px.
Proof.
  induction px as [|[[r g] b] px IH]; cbn [map]; constructor; [|exact IH].
  unfold denotes. cbn. repeat split; reflexivity.
Qed.

Lemma denotes_cast fl px :
  Forall valid_pixel px -> Forall2 denotes fl px ->
  map (map_pixel (fun x => to_uint8 (clip x))) fl = px.
Proof.
  intros Hvalid Hfl. induction Hfl as [|[[r g] b] [[r' g'] b'] fl px Hd _ IH];
    [reflexivity|].
  inversion Hvalid as [|? ? Hp Hrest]; subst. cbn [map map_pixel].
  destruct Hd as [H0 [H1 H2]]. cbn [channel] in *.
  destruct Hp as [Hr [Hg Hb]]. unfold byte_range in *.
  rewrite (to_uint8_clip r r'), (to_uint8_clip g g'), (to_uint8_clip b b')
    by assumption.
  now rewrite IH.
Qed.

(** C8. On a non-empty image of bytes whose three channel means are
    equal, every channel with a positive mean has the scale factor
    [mean_global / mean_channel] equal to 1, and
    [gray_world_white_balance] returns the image itself. *)
Theorem gray_image_unchanged (img : image) :
  valid_image img -> data img <> [] -> gray img ->
  (forall i, (i < 3)%nat ->
     let mean_channel := mean (map (channel i) (data img)) in
     ~ (mean_channel == 0)%Q ->
     (mean (entries (data img)) / mean_channel == 1)%Q) /\
  gray_world_white_balance img = img.
Proof.
  intros [Hwf Hvalid] Hne Hgray. split.
  { intros i Hi mean_channel Hpos. unfold mean_channel in *.
    rewrite (gray_global_mean img i Hne Hgray Hi).
    unfold Qdiv. now apply Qmult_inv_r. }
  unfold gray_world_white_balance.
  destruct img as [s px]. cbn [shape data] in *. apply f_equal.
  apply denotes_cast; [exact Hvalid|].
  cbn [seq fold_left].
  repeat (apply (balance_channel_gray (mk_ndarray s px));
          [assumption.. | lia |]).
  apply denotes_inject.
Qed.

(** The theorem on two pixels whose channel means are all 20. *)
Lemma gray_image_unchanged_witness :
  gray_world_white_balance gray_image = gray_image.
Proof.
  apply (gray_image_unchanged gray_image).
  - split; [reflexivity|].
    repeat (apply Forall_cons;
            [unfold valid_pixel, byte_range; lia|]). constructor.
  - discriminate.
  - split; vm_compute; reflexivity.
Defined.

(** ** Colouring *)

Lemma colored_mask_map (l : list Z) :
  masked_assign (fun m => m =? 255) (255, 0, 0) l
    (masked_assign (fun m => m =? 128) (0, 255, 0) l
       (masked_assign (fun m => m =? 0) (0, 0, 0) l
          (repeat (0, 0, 0) (length l))))
  = map color_of l.
Proof.
  induction l as [|v l IH]; [reflexivity|].
  cbn [length repeat map]. rewrite !masked_assign_cons, IH. f_equal.
  unfold color_of.
  destruct (Z.eqb_spec v 255), (Z.eqb_spec v 128), (Z.eqb_spec v 0);
    try reflexivity; lia.
Qed.

(** C10. [create_colored_mask] raises nothing on a two-dimensional mask:
    it returns the image that is red where the mask is 255, green where it
    is 128 and black elsewhere, so a pixel whose value is none of 0, 128
    and 255 comes out black, like the background. *)
Theorem unknown_values_are_black (mask : ndarray Z) h w :
  wf mask -> shape mask = [h; w] ->
  exists colored,
    create_colored_mask mask = Ok colored /\
    shape colored = [h; w] /\
    data colored = map color_of (data mask) /\
    forall p, (p < h * w)%nat ->
      ~ mask_value (pixel mask p) -> nth p (data colored) (0, 0, 0) = (0, 0, 0).
Proof.
  intros Hwf Hshape. unfold create_colored_mask. rewrite Hshape.
  assert (Hl : length (data mask) = (h * w)%nat).
  { rewrite Hwf, Hshape. cbn. lia. }
  eexists. split; [reflexivity|]. cbn [shape data].
  rewrite <- Hl. rewrite colored_mask_map.
  split; [reflexivity|]. split; [reflexivity|].
  intros p Hp Hv. change (0, 0, 0) with (color_of 1) at 1.
  rewrite map_nth. fold (pixel mask p) in *. unfold pixel in *.
  assert (Hd : nth p (data mask) 1 = nth p (data mask) 0)
    by (apply nth_indep; exact Hp).
  rewrite Hd. unfold color_of, mask_value in *.
  destruct (Z.eqb_spec (nth p (data mask) 0) 255); [tauto|].
  destruct (Z.eqb_spec (nth p (data mask) 0) 128); [tauto|]. reflexivity.
Qed.

(** The theorem on a mask holding the value 7. *)
Lemma unknown_values_are_black_witness :
  exists colored,
    create_colored_mask odd_mask = Ok colored /\
    nth 3 (data colored) (0, 0, 0) = (0, 0, 0).
Proof.
  destruct (unknown_values_are_black odd_mask 2 2)
    as [colored [Hc [_ [_ Hblack]]]].
  - reflexivity.
  - reflexivity.
  - exists colored. split; [exact Hc|]. apply Hblack; [lia|].
    unfold mask_value, pixel. cbn. lia.
Defined.

(** ** Statistics *)

Lemma count_partition (l : list Z) :
  Forall mask_value l ->
  count_eq 0 l + count_eq 128 l + count_eq 255 l = Z.of_nat (length l).
Proof.
  unfold count_eq. induction 1 as [|v l Hv _ IH]; [reflexivity|].
  cbn [filter length].
  destruct Hv as [-> | [-> | ->]]; cbn [Z.eqb Pos.eqb length]; lia.
Qed.

Lemma percent_sum (a b c t : Z) :
  t <> 0 -> a + b + c = t ->
  (percent (F:=Q) a t + percent b t + percent c t == 100)%Q.
Proof.
  intros Ht Hsum. unfold percent. cbn [fmul fdiv of_int exact].
  rewrite <- Hsum. rewrite !inject_Z_plus.
  assert (Hne : ~ (inject_Z a + inject_Z b + inject_Z c == 0)%Q).
  { rewrite <- !inject_Z_plus. rewrite Hsum. unfold Qeq. cbn. lia. }
  field. exact Hne.
Qed.



(** ** The decoder on every input *)

(** X1. [process_unet_output] returns an array exactly for the tensors
    that have an element, whatever their shape and their values; on a
    tensor without elements it raises the ValueError of [prediction.min()],
    and it raises nothing else. *)
Theorem decode_succeeds_iff_nonempty uc (t : ndarray spec_float) :
  ((exists m, process_unet_output uc t = Ok m) <-> size t <> 0%nat) /\
  ((exists msg, process_unet_output uc t = Raise (ValueError msg))
   <-> size t = 0%nat) /\
  forall e, process_unet_output uc t = Raise e -> exists msg, e = ValueError msg.
Proof.
  assert (Hempty : size t = 0%nat ->
            process_unet_output uc t
            = Raise (ValueError
                "zero-size array to reduction operation minimum which has no identity")).
  { intro H. unfold process_unet_output. now rewrite H. }
  split; [|split].
  - split.
    + intros [m Hm] H0. rewrite (Hempty H0) in Hm. discriminate.
    + apply process_unet_output_total.
  - split.
    + intros [msg Hmsg]. destruct (Nat.eq_dec (size t) 0) as [E | Hne];
        [exact E|].
      destruct (process_unet_output_total uc t Hne) as [m Hm]. congruence.
    + intro H0. eexists. apply (Hempty H0).
  - intros e He. destruct (Nat.eq_dec (size t) 0) as [E | Hne].
    + rewrite (Hempty E) in He. inversion He. eauto.
    + destruct (process_unet_output_total uc t Hne) as [m Hm]. congruence.
Qed.

(** The theorem on a tensor of shape (0, 2, 3). *)
Lemma decode_succeeds_iff_nonempty_witness :
  exists msg,
    process_unet_output (fun _ => 0) (mk_ndarray [0; 2; 3]%nat [])
    = Raise (ValueError msg).
Proof.
  destruct (decode_succeeds_iff_nonempty
              (fun _ => 0) (mk_ndarray [0; 2; 3]%nat [])) as [_ [Hempty _]].
  apply Hempty. reflexivity.
Defined.

Lemma lane_triple (t : ndarray spec_float) h w p :
  wf t -> shape t = [h; w; 3]%nat -> (p < h * w)%nat ->
  lane t p = [fnth (3 * p) (data t); fnth (3 * p + 1) (data t);
              fnth (3 * p + 2) (data t)].
Proof.
  intros Hwf Hshape Hp. unfold lane, last_dim, fnth. rewrite Hshape. cbn [last].
  assert (Hlen : length (data t) = (h * w * 3)%nat).
  { rewrite Hwf. rewrite Hshape. cbn. lia. }
  replace (p * 3)%nat with (3 * p)%nat by lia.
  rewrite (skipn_cons_nth S754_nan (3 * p)) by lia.
  rewrite (skipn_cons_nth S754_nan (S (3 * p))) by lia.
  rewrite (skipn_cons_nth S754_nan (S (S (3 * p)))) by lia.
  cbn [firstn]. do 2 f_equal; [f_equal; lia|]. do 2 f_equal. lia.
Qed.

Lemma argmax_triple a b c :
  F32.isnan a = false -> F32.isnan b = false -> F32.isnan c = false ->
  class_value (argmax [a; b; c]) = three_way a b c.
Proof.
  intros Ha Hb Hc. unfold argmax, three_way. rewrite Ha.
  cbn [argmax_from]. rewrite Hb, Hc.
  destruct (SFleb b a); cbn [negb].
  - now destruct (SFleb c a).
  - now destruct (SFleb c b).
Qed.

(** X2. On a well-formed, NaN-free tensor of shape (h, w, 3) every pixel
    of the decoded mask is the class of its largest channel, and a tie
    goes to the lower class: 0 when channel 0 is at least channels 1 and
    2, else 128 when channel 1 is at least channel 2, else 255. *)
Theorem three_channel_decode uc (t : ndarray spec_float) h w :
  wf t -> shape t = [h; w; 3]%nat -> size t <> 0%nat -> no_nan (data t) ->
  exists m,
    process_unet_output uc t = Ok m /\ shape m = [h; w] /\
    forall p, (p < h * w)%nat ->
      pixel m p = three_way (fnth (3 * p) (data t))
                            (fnth (3 * p + 1) (data t))
                            (fnth (3 * p + 2) (data t)).
Proof.
  intros Hwf Hshape Hsize Hnan.
  destruct (multi_class_decode_small uc t h w 3 Hshape ltac:(lia) Hsize)
    as [m [Hm [Hs [_ Hpx]]]].
  exists m. split; [exact Hm|]. split; [exact Hs|].
  intros p Hp. rewrite (Hpx p Hp), (lane_triple t h w p Hwf Hshape Hp).
  assert (Hlen : length (data t) = (h * w * 3)%nat).
  { rewrite Hwf. rewrite Hshape. cbn. lia. }
  unfold no_nan in Hnan. rewrite Forall_forall in Hnan.
  apply argmax_triple; apply Hnan; unfold fnth; apply nth_In; lia.
Qed.

(** The theorem on [three_class_tensor]: the tie between the channels 1
    and 2 of the first pixel goes to class 128. *)
Lemma three_channel_decode_witness :
  exists m,
    process_unet_output (fun _ => 0) three_class_tensor = Ok m /\
    pixel m 0 = 128 /\ pixel m 1 = 0.
Proof.
  destruct (three_channel_decode (fun _ => 0) three_class_tensor 1 2)
    as [m [Hm [_ Hpx]]].
  - reflexivity.
  - reflexivity.
  - discriminate.
  - repeat constructor.
  - exists m. split; [exact Hm|].
    split; [rewrite (Hpx 0%nat) | rewrite (Hpx 1%nat)];
      try lia; reflexivity.
Defined.

Lemma argmax_from_first_nan pre post : forall mp mi i,
  no_nan pre -> F32.isnan mp = false ->
  argmax_from mp mi i (pre ++ S754_nan :: post) = (i + length pre)%nat.
Proof.
  induction pre as [|x pre IH]; intros mp mi i Hpre Hmp.
  - cbn [app argmax_from length].
    assert (Hle : SFleb S754_nan mp = false) by (now destruct mp).
    rewrite Hle. cbn. lia.
  - inversion Hpre as [|? ? Hx Hrest]; subst.
    cbn [app argmax_from length]. rewrite Hx.
    destruct (negb (SFleb x mp)).
    + rewrite IH by assumption. lia.
    + rewrite IH by assumption. lia.
Qed.

(** [np.argmax] stops at the first NaN. *)
Lemma argmax_nan (pre post : list spec_float) :
  no_nan pre -> argmax (pre ++ S754_nan :: post) = length pre.
Proof.
  intro Hpre. destruct pre as [|mp pre]; [reflexivity|].
  inversion Hpre as [|? ? Hmp Hrest]; subst.
  cbn [app argmax length]. rewrite Hmp.
  now rewrite argmax_from_first_nan.
Qed.

(** X3. In the multi-class branch (3 to 256 channels) a pixel whose
    first NaN sits in channel [k] decodes to the class of [k], whatever
    the other channels hold. *)
Theorem nan_channel_wins uc (t : ndarray spec_float) h w c p pre post :
  shape t = [h; w; c] -> (3 <= c <= 256)%nat -> size t <> 0%nat ->
  (p < h * w)%nat ->
  lane t p = pre ++ S754_nan :: post -> no_nan pre ->
  exists m,
    process_unet_output uc t = Ok m /\ pixel m p = class_value (length pre).
Proof.
  intros Hshape Hc Hsize Hp Hlane Hpre.
  destruct (multi_class_decode_small uc t h w c Hshape Hc Hsize)
    as [m [Hm [_ [_ Hpx]]]].
  exists m. split; [exact Hm|].
  rewrite (Hpx p Hp), Hlane. f_equal. now apply argmax_nan.
Qed.

(** The theorem on [nan_tensor]: the NaN of channel 1 gives 128 although
    channel 2 holds the largest number. *)
Lemma nan_channel_wins_witness :
  exists m,
    process_unet_output (fun _ => 0) nan_tensor = Ok m /\ pixel m 0 = 128.
Proof.
  apply (nan_channel_wins (fun _ => 0) nan_tensor 1 1 3 0
           [F32.of_Z 1] [F32.of_Z 5]).
  - reflexivity.
  - lia.
  - discriminate.
  - lia.
  - reflexivity.
  - repeat constructor.
Defined.

(** X4. A non-empty tensor of shape (h, w, 1) is squeezed before it is
    thresholded: the result has the axes of [(h, w)] that are not 1.  It
    is two-dimensional when neither [h] nor [w] is 1; when one of them is
    1 the result has fewer than two axes and [create_colored_mask] raises
    a [ValueError] on it, unpacking [mask.shape]. *)
Theorem single_channel_squeeze uc (t : ndarray spec_float) h w :
  wf t -> shape t = [h; w; 1]%nat -> size t <> 0%nat ->
  exists m,
    process_unet_output uc t = Ok m /\
    shape m = squeeze_shape [h; w] /\
    length (data m) = (h * w)%nat /\
    (h <> 1%nat -> w <> 1%nat -> shape m = [h; w]) /\
    (h = 1%nat \/ w = 1%nat ->
     (length (shape m) < 2)%nat /\
     exists msg, create_colored_mask m = Raise (ValueError msg)).
Proof.
  intros Hwf Hshape Hsize. unfold process_unet_output.
  destruct (Nat.eqb_spec (size t) 0) as [E|_]; [contradiction|].
  unfold ndim, last_dim. rewrite Hshape.
  cbn [length last Nat.eqb Nat.leb andb].
  eexists. split; [reflexivity|].
  assert (Hsq : shape (squeeze t) = squeeze_shape [h; w]).
  { unfold squeeze. cbn [shape]. rewrite Hshape. unfold squeeze_shape.
    cbn [filter Nat.eqb negb].
    destruct (negb (Nat.eqb h 1)), (negb (Nat.eqb w 1)); reflexivity. }
  cbn [shape data]. rewrite Hsq.
  split; [reflexivity|]. split.
  { rewrite three_class_band, !length_map. unfold squeeze. cbn [data].
    rewrite Hwf, Hshape. cbn. lia. }
  split.
  - intros Hh Hw. unfold squeeze_shape. cbn [filter].
    destruct (Nat.eqb_spec h 1); [contradiction|].
    destruct (Nat.eqb_spec w 1); [contradiction|]. reflexivity.
  - intro H1. unfold create_colored_mask. cbn [shape].
    unfold squeeze_shape. cbn [filter].
    destruct (Nat.eqb_spec h 1) as [Eh|Nh], (Nat.eqb_spec w 1) as [Ew|Nw];
      cbn [negb length]; try (split; [lia | eexists; reflexivity]).
    destruct H1; contradiction.
Qed.

(** The theorem on a tensor of shape (1, 2, 1). *)
Lemma single_channel_squeeze_witness :
  exists m,
    process_unet_output (fun _ => 0)
      (mk_ndarray [1; 2; 1]%nat [F32.of_Z 0; F32.of_Z 1]) = Ok m /\
    shape m = [2]%nat /\
    exists msg, create_colored_mask m = Raise (ValueError msg).
Proof.
  destruct (single_channel_squeeze (fun _ => 0)
              (mk_ndarray [1; 2; 1]%nat [F32.of_Z 0; F32.of_Z 1]) 1 2)
    as [m [Hm [Hs [_ [_ Hbad]]]]].
  - reflexivity.
  - reflexivity.
  - discriminate.
  - exists m. split; [exact Hm|]. split; [exact Hs|].
    apply Hbad. left. reflexivity.
Defined.



(** ** Resizing a mask *)

Lemma In_grid {A} h w (f : nat -> nat -> A) v :
  In v (grid h w f) ->
  exists y x, (y < h)%nat /\ (x < w)%nat /\ v = f y x.
Proof.
  unfold grid. rewrite in_flat_map. intros [y [Hy Hv]].
  rewrite in_map_iff in Hv. destruct Hv as [x [Hv Hx]].
  rewrite in_seq in Hy, Hx. exists y, x. repeat split; try lia. now symmetry.
Qed.

(** Every pixel of a resized image is read from the source list. *)
Lemma resize_nearest_In coord sh sw dh dw (px : list Z) v :
  In v (resize_nearest coord sh sw dh dw px) ->
  exists i, v = nth i px 0 /\ ((0 < sh)%nat -> (0 < sw)%nat -> (i < sh * sw)%nat).
Proof.
  rewrite resize_nearest_grid. intro Hin.
  destruct (In_grid _ _ _ _ Hin) as [y [x [_ [_ Hv]]]].
  eexists. split; [exact Hv|]. intros Hsh Hsw.
  pose proof (Nat.le_min_r (coord sh dh y) (sh - 1)).
  pose proof (Nat.le_min_r (coord sw dw x) (sw - 1)).
  nia.
Qed.

Lemma resize_nearest_values coord sh sw dh dw (px : list Z) :
  Forall mask_value px ->
  Forall mask_value (resize_nearest coord sh sw dh dw px).
Proof.
  intro Hpx. apply Forall_forall. intros v Hv.
  destruct (resize_nearest_In _ _ _ _ _ _ _ Hv) as [i [-> _]].
  destruct (Nat.lt_ge_cases i (length px)) as [Hi | Hi].
  - rewrite Forall_forall in Hpx. apply Hpx. now apply nth_In.
  - rewrite nth_overflow by assumption. now left.
Qed.

Lemma length_resize_nearest coord sh sw dh dw (px : list Z) :
  length (resize_nearest coord sh sw dh dw px) = (dh * dw)%nat.
Proof. rewrite resize_nearest_grid. apply length_grid. Qed.

(** When [cv2_resize] returns, what it was given and what it returns. *)
Lemma cv2_resize_ok src dw dh dst :
  cv2_resize src (dw, dh) = Ok dst ->
  exists sh sw,
    as_mat (shape src) = Some (sh, sw) /\
    (0 < sh)%nat /\ (0 < sw)%nat /\ (0 < dw)%nat /\ (0 < dh)%nat /\
    dst = mk_ndarray [dh; dw] (resize_nearest cv_coord sh sw dh dw (data src)).
Proof.
  unfold cv2_resize.
  destruct (as_mat (shape src)) as [[sh sw]|]; [|discriminate].
  destruct (Nat.eqb_spec sh 0), (Nat.eqb_spec sw 0); try discriminate.
  destruct (Nat.eqb_spec dw 0), (Nat.eqb_spec dh 0); try discriminate.
  cbn [orb]. intro H. inversion H. exists sh, sw.
  repeat split; try lia.
Qed.

Lemma cv2_resize_mat src sh sw dw dh :
  as_mat (shape src) = Some (sh, sw) ->
  (0 < sh)%nat -> (0 < sw)%nat -> (0 < dw)%nat -> (0 < dh)%nat ->
  cv2_resize src (dw, dh)
  = Ok (mk_ndarray [dh; dw] (resize_nearest cv_coord sh sw dh dw (data src))).
Proof.
  intros Hs Hsh Hsw Hdw Hdh. unfold cv2_resize. rewrite Hs.
  destruct (Nat.eqb_spec sh 0), (Nat.eqb_spec sw 0); try lia.
  destruct (Nat.eqb_spec dw 0), (Nat.eqb_spec dh 0); try lia.
  reflexivity.
Qed.

Lemma cv2_resize_positive src sh sw dw dh :
  shape src = [sh; sw] ->
  (0 < sh)%nat -> (0 < sw)%nat -> (0 < dw)%nat -> (0 < dh)%nat ->
  cv2_resize src (dw, dh)
  = Ok (mk_ndarray [dh; dw] (resize_nearest cv_coord sh sw dh dw (data src))).
Proof.
  intros Hs. apply cv2_resize_mat. now rewrite Hs.
Qed.

(** X6. On a well-formed two-dimensional mask, nearest-neighbour
    [cv2.resize] to [(dw, dh)] returns exactly when the source and the
    target have no side of length 0, and fails with a [cv2.error]
    otherwise.  The returned mask has shape [(dh, dw)], is well-formed,
    and every value in it is a value of the source: resizing invents no
    pixel value. *)
Theorem resize_samples_source (src : ndarray Z) sh sw dw dh :
  wf src -> shape src = [sh; sw] ->
  ((exists dst, cv2_resize src (dw, dh) = Ok dst)
   <-> (0 < sh)%nat /\ (0 < sw)%nat /\ (0 < dw)%nat /\ (0 < dh)%nat) /\
  (forall dst, cv2_resize src (dw, dh) = Ok dst ->
     shape dst = [dh; dw] /\ wf dst /\ incl (data dst) (data src)) /\
  (forall e, cv2_resize src (dw, dh) = Raise e -> exists msg, e = Cv2Error msg).
Proof.
  intros Hwf Hs. split; [|split].
  - split.
    + intros [dst Hd]. destruct (cv2_resize_ok _ _ _ _ Hd)
        as [sh' [sw' [Hs' [? [? [? [? _]]]]]]].
      rewrite Hs in Hs'. inversion Hs'. subst. auto.
    + intros [? [? [? ?]]]. eexists.
      apply (cv2_resize_positive _ _ _ _ _ Hs); assumption.
  - intros dst Hd.
    destruct (cv2_resize_ok _ _ _ _ Hd)
      as [sh' [sw' [Hs' [Hsh [Hsw [_ [_ ->]]]]]]].
    rewrite Hs in Hs'. inversion Hs'. subst sh' sw'. cbn [shape data].
    split; [reflexivity|]. split.
    + unfold wf. cbn [shape data]. rewrite length_resize_nearest.
      cbn. lia.
    + intros v Hv.
      destruct (resize_nearest_In _ _ _ _ _ _ _ Hv) as [i [-> Hi]].
      apply nth_In. rewrite Hwf, Hs. cbn. specialize (Hi Hsh Hsw). lia.
  - unfold cv2_resize. rewrite Hs. cbn [as_mat]. intros e.
    destruct (Nat.eqb sh 0 || Nat.eqb sw 0)%bool;
      [intro H; inversion H; eauto|].
    destruct (Nat.eqb dw 0 || Nat.eqb dh 0)%bool;
      [intro H; inversion H; eauto|].
    discriminate.
Qed.

(** The theorem on [two_pixel_mask], enlarged to two rows of four. *)
Lemma resize_samples_source_witness :
  exists dst, cv2_resize two_pixel_mask (4, 2)%nat = Ok dst /\
              shape dst = [2; 4]%nat /\ incl (data dst) [0; 255].
Proof.
  destruct (resize_samples_source two_pixel_mask 1 2 4 2) as [Hiff [Hok _]].
  - reflexivity.
  - reflexivity.
  - destruct (proj2 Hiff) as [dst Hd]; [repeat split; lia|].
    exists dst. split; [exact Hd|].
    destruct (Hok dst Hd) as [Hshape [_ Hincl]]. split; assumption.
Defined.

(** A resized mask holds no value that the source does not hold. *)
Lemma cv2_resize_values src dw dh dst :
  cv2_resize src (dw, dh) = Ok dst -> Forall mask_value (data src) ->
  shape dst = [dh; dw] /\ (0 < dh)%nat /\ (0 < dw)%nat /\ wf dst /\
  Forall mask_value (data dst).
Proof.
  intros Hres Hv.
  destruct (cv2_resize_ok _ _ _ _ Hres) as [sh [sw [_ [_ [_ [Hw [Hh ->]]]]]]].
  cbn [shape data]. repeat split; try assumption.
  - unfold wf. cbn [shape data]. rewrite length_resize_nearest. cbn. lia.
  - now apply resize_nearest_values.
Qed.

(** ** The prediction *)

Lemma or_none_some {A} (r : result A) a :
  Inference.or_none r = Ok (Some a) -> r = Ok a.
Proof.
  destruct r as [a'|e]; [|destruct e]; cbn; intro H; inversion H; reflexivity.
Qed.

Lemma bind_ok {A B} (r : result A) (k : A -> result B) b :
  bind r k = Ok b -> exists a, r = Ok a /\ k a = Ok b.
Proof. destruct r as [a|e]; cbn; [eauto | discriminate]. Qed.

(** A mask returned by [predict_segmentation] is the decoded prediction,
    resized to the image that was read. *)
Lemma predict_segmentation_inv {path M} {C : Cv2 path}
      {U : Inference.Unet M} (image_path : path) (model : option M) mask :
  Inference.predict_segmentation image_path model = Ok (Some mask) ->
  exists image h w prediction decoded,
    imread image_path = Some image /\ shape image = [h; w] /\
    process_unet_output Inference.undefined_cast prediction = Ok decoded /\
    cv2_resize decoded (w, h) = Ok mask.
Proof.
  unfold Inference.predict_segmentation.
  destruct model as [model|]; [|discriminate].
  destruct (imread image_path) as [image|]; [|discriminate].
  intro H. apply or_none_some in H.
  destruct (shape image) as [|h [|w [|? ?]]] eqn:Hs; try discriminate.
  cbv zeta in H.
  apply bind_ok in H. destruct H as [resized [_ H]].
  apply bind_ok in H. destruct H as [image_rgb [_ H]].
  apply bind_ok in H. destruct H as [prediction [_ H]].
  apply bind_ok in H. destruct H as [decoded [Hdec H]].
  exists image, h, w, prediction, decoded. auto.
Qed.

(** The mask decoded from an output of three axes is an image for
    OpenCV, of one or of two axes, unless the output is one single
    number. *)
Lemma decoded_mat uc (t : ndarray spec_float) :
  length (shape t) = 3%nat -> shape t <> [1; 1; 1]%nat -> size t <> 0%nat ->
  exists decoded sh sw,
    process_unet_output uc t = Ok decoded /\
    as_mat (shape decoded) = Some (sh, sw) /\ (0 < sh)%nat /\ (0 < sw)%nat.
Proof.
  intros Hlen Hone Hsize. unfold process_unet_output.
  destruct (Nat.eqb_spec (size t) 0) as [E|_]; [contradiction|].
  unfold size, ndim, last_dim, squeeze in *.
  destruct (shape t) as [|a [|b [|c [|? ?]]]]; try discriminate.
  cbn [size_of fold_right] in Hsize.
  cbn [length last removelast Nat.eqb andb].
  destruct (Nat.leb_spec 3 c) as [Hc|Hc].
  { eexists; exists a, b. cbn [shape as_mat]. repeat split; nia. }
  destruct (Nat.eqb_spec c 2) as [Hc2|Hc2].
  { eexists; exists a, b. cbn [shape as_mat]. repeat split; nia. }
  assert (c = 1%nat) as -> by nia.
  unfold squeeze_shape. cbn [shape filter Nat.eqb negb].
  destruct (Nat.eqb_spec a 1) as [Ea|Na], (Nat.eqb_spec b 1) as [Eb|Nb];
    cbn [negb].
  - subst. contradiction.
  - eexists; exists b, 1%nat. cbn [shape as_mat]. repeat split; nia.
  - eexists; exists a, 1%nat. cbn [shape as_mat]. repeat split; nia.
  - eexists; exists a, b. cbn [shape as_mat]. repeat split; nia.
Qed.

(** X7. For a file that [cv2.imread] reads as an image with pixels and an
    output of the network with three axes that has an element and is not
    one single number, [predict_segmentation] returns a mask; and every
    mask it returns has the height and the width of the image that was
    read, holds one value per pixel, and holds only 0, 128 and 255,
    whatever the values and the size of the output.  An output whose
    decoded mask has no axis, or more than two, is outside the model of
    [cv2.resize]. *)
Theorem predicted_mask_is_canonical {path M} {C : Cv2 path}
        {U : Inference.Unet M} (image_path : path) (model : option M) :
  (forall m image h w image_resized image_rgb prediction,
     model = Some m ->
     imread image_path = Some image -> shape image = [h; w] ->
     (0 < h)%nat -> (0 < w)%nat ->
     Inference.resize_to_input image = Ok image_resized ->
     cvtColor_swap image_resized = Ok image_rgb ->
     Inference.predict m
       (mk_ndarray (shape image_rgb)
          (map (map_pixel Inference.normalize) (data image_rgb)))
     = Ok prediction ->
     length (shape prediction) = 3%nat ->
     shape prediction <> [1; 1; 1]%nat -> size prediction <> 0%nat ->
     exists mask,
       Inference.predict_segmentation image_path model = Ok (Some mask)) /\
  (forall mask,
     Inference.predict_segmentation image_path model = Ok (Some mask) ->
     exists image h w,
       imread image_path = Some image /\ shape image = [h; w] /\
       (0 < h)%nat /\ (0 < w)%nat /\
       shape mask = [h; w] /\ wf mask /\ Forall mask_value (data mask)).
Proof.
  split.
  - intros m image h w image_resized image_rgb prediction
           -> Him Hs Hh Hw Hres Hcvt Hpred Hlen Hone Hsize.
    destruct (decoded_mat Inference.undefined_cast prediction Hlen Hone Hsize)
      as [decoded [sh [sw [Hdec [Hmat [Hsh Hsw]]]]]].
    unfold Inference.predict_segmentation. rewrite Him, Hs. cbv zeta.
    rewrite Hres. cbn [bind]. rewrite Hcvt. cbn [bind].
    rewrite Hpred. cbn [bind]. rewrite Hdec. cbn [bind].
    rewrite (cv2_resize_mat decoded sh sw w h) by assumption.
    eexists. reflexivity.
  - intros mask H.
    destruct (predict_segmentation_inv _ _ _ H)
      as [image [h [w [prediction [decoded [Him [Hs [Hdec Hres]]]]]]]].
    pose proof (process_unet_output_values _ _ _ Hdec) as Hv.
    destruct (cv2_resize_values _ _ _ _ Hres Hv)
      as [Hshape [Hh [Hw [Hwf Hm]]]].
    exists image, h, w. repeat split; assumption.
Qed.

(** The theorem on the sample network, whose output has the shape
    (1, 2, 3), and a photograph of 2 x 2 pixels. *)
Lemma predicted_mask_is_canonical_witness :
  exists mask,
    @Inference.predict_segmentation _ _ sample_cv2 sample_unet
       "leaf.jpg"%string (Some tt) = Ok (Some mask) /\
    shape mask = [2; 2]%nat /\ Forall mask_value (data mask).
Proof.
  destruct (predicted_mask_is_canonical
              (C := sample_cv2) (U := sample_unet) "leaf.jpg"%string (Some tt))
    as [Hreturns Hmask].
  destruct (Hreturns tt sample_photo 2%nat 2%nat sample_photo
              (mk_ndarray [2; 2]%nat
                 [(30, 200, 10); (40, 180, 20); (30, 60, 90); (0, 0, 0)])
              three_class_tensor)
    as [mask Hm]; try reflexivity; try lia; try discriminate.
  exists mask. split; [exact Hm|].
  destruct (Hmask mask Hm) as [image [h [w [Him [Hs [_ [_ [Hsm [_ Hv]]]]]]]]].
  split; [|exact Hv].
  cbn in Him. inversion Him; subst image. cbn in Hs. inversion Hs; subst.
  exact Hsm.
Defined.

(** X8. [predict_segmentation] returns [None] without a model and for a
    file that cannot be read, and no exception leaves it: in particular an
    output of the network without elements, on which [process_unet_output]
    raises, gives [None]. *)
Theorem prediction_failures_return_none {path M} {C : Cv2 path}
        {U : Inference.Unet M} (image_path : path) :
  Inference.predict_segmentation image_path (@None M) = Ok None /\
  (forall model, imread image_path = None ->
     Inference.predict_segmentation image_path (Some model) = Ok None) /\
  (forall model e,
     Inference.predict_segmentation image_path model = Raise e ->
     exists what, e = NotModelled what) /\
  (forall model image h w image_resized image_rgb prediction,
     imread image_path = Some image -> shape image = [h; w] ->
     Inference.resize_to_input image = Ok image_resized ->
     cvtColor_swap image_resized = Ok image_rgb ->
     Inference.predict model
       (mk_ndarray (shape image_rgb)
          (map (map_pixel Inference.normalize) (data image_rgb)))
     = Ok prediction ->
     size prediction = 0%nat ->
     Inference.predict_segmentation image_path (Some model) = Ok None).
Proof.
  split; [reflexivity|]. split; [|split].
  - intros model Him. unfold Inference.predict_segmentation.
    now rewrite Him.
  - intros model e. unfold Inference.predict_segmentation.
    destruct model as [model|]; [|discriminate].
    destruct (imread image_path) as [image|]; [|discriminate].
    match goal with
    | |- Inference.or_none ?r = _ -> _ => destruct r as [a|e']; [|destruct e']
    end; cbn; intro H; inversion H. eauto.
  - intros model image h w image_resized image_rgb prediction
           Him Hs Hres Hcvt Hpred Hsize.
    unfold Inference.predict_segmentation. rewrite Him, Hs. cbv zeta.
    rewrite Hres. cbn [bind]. rewrite Hcvt. cbn [bind].
    rewrite Hpred. cbn [bind].
    unfold process_unet_output. rewrite Hsize. reflexivity.
Qed.

(** The theorem on a network with an empty output. *)
Lemma prediction_failures_return_none_witness :
  @Inference.predict_segmentation _ _ sample_cv2 empty_unet
     "leaf.jpg"%string (Some tt) = Ok None.
Proof.
  destruct (prediction_failures_return_none
              (C := sample_cv2) (U := empty_unet) "leaf.jpg"%string)
    as [_ [_ [_ Hempty]]].
  eapply (Hempty tt sample_photo 2%nat 2%nat); reflexivity.
Defined.

Lemma normalize_bytes_table :
  forallb (fun n => in_unit_interval_b (Inference.normalize (Z.of_nat n)))
          (seq 0 256) = true.
Proof. vm_compute. reflexivity. Qed.

(** X9. The normalisation [astype(np.float32) / 255.0] sends every byte
    to a finite float32 of the unit interval, so the network is fed values
    between 0 and 1. *)
Theorem normalize_unit_interval (z : Z) :
  0 <= z <= 255 -> in_unit_interval (Inference.normalize z).
Proof.
  intro Hz. pose proof normalize_bytes_table as Htab.
  rewrite forallb_forall in Htab.
  specialize (Htab (Z.to_nat z)). rewrite Z2Nat.id in Htab by lia.
  assert (Hin : In (Z.to_nat z) (seq 0 256)) by (apply in_seq; lia).
  specialize (Htab Hin). unfold in_unit_interval_b in Htab.
  apply andb_prop in Htab. destruct Htab as [Htab H1].
  apply andb_prop in Htab. destruct Htab as [Hfin H0].
  apply Qle_bool_iff in H0, H1. repeat split; assumption.
Qed.

(** The theorem on the byte 128. *)
Lemma normalize_unit_interval_witness :
  in_unit_interval (Inference.normalize 128).
Proof. apply (normalize_unit_interval 128). lia. Defined.

(** ** The diseased regions *)

Lemma length_masked_assign {A B} (sel : A -> bool) (v : B) src dst :
  length src = length dst -> length (masked_assign sel v src dst) = length dst.
Proof.
  intro H. unfold masked_assign. rewrite length_map, length_combine. lia.
Qed.

Lemma nth_masked_assign {A B} (sel : A -> bool) (v : B) (da : A) (db : B) :
  forall src dst p,
    (p < length src)%nat -> (p < length dst)%nat ->
    nth p (masked_assign sel v src dst) db
    = if sel (nth p src da) then v else nth p dst db.
Proof.
  induction src as [|a src IH]; intros [|d dst] p Hs Hd; cbn in Hs, Hd;
    try lia.
  rewrite masked_assign_cons. destruct p as [|p]; [reflexivity|].
  cbn [nth]. apply IH; lia.
Qed.

Lemma size_of_pair h w : size_of [h; w] = (h * w)%nat.
Proof. cbn. lia. Qed.

(** X10. For an image and a mask of the same height and width,
    [extract_diseased_regions] returns an image of that shape which keeps
    the pixel of the image where the mask is 255 and is black everywhere
    else; extracting again from the result with the same mask changes
    nothing. *)
Theorem diseased_regions_pixelwise (image : ndarray rgb) (mask : ndarray Z)
        h w :
  wf image -> wf mask -> shape image = [h; w] -> shape mask = [h; w] ->
  exists r,
    Regions.extract_diseased_regions image mask = Ok r /\
    shape r = [h; w] /\ wf r /\
    (forall p, (p < h * w)%nat ->
       nth p (data r) (0, 0, 0)
       = if pixel mask p =? 255 then nth p (data image) (0, 0, 0)
         else (0, 0, 0)) /\
    Regions.extract_diseased_regions r mask = Ok r.
Proof.
  intros Hwi Hwm Hsi Hsm.
  unfold Regions.extract_diseased_regions. unfold wf, rgb in *.
  rewrite Hsi, Hsm in *. rewrite size_of_pair in Hwi, Hwm.
  destruct (list_eq_dec Nat.eq_dec [h; w] [h; w]) as [_|Hne];
    [|contradiction]. cbn [bind].
  eexists. split; [reflexivity|]. cbn [shape data].
  set (black := (0, 0, 0)).
  set (kept := masked_assign (fun m => negb (m =? 255)) black
                             (data mask) (data image)).
  assert (Hlen : length kept = (h * w)%nat).
  { unfold kept. rewrite length_masked_assign; lia. }
  assert (Hpix : forall p, (p < h * w)%nat ->
            nth p kept black
            = if pixel mask p =? 255 then nth p (data image) black
              else black).
  { intros p Hp. unfold kept. rewrite (nth_masked_assign _ _ 0) by lia.
    unfold pixel. now destruct (nth p (data mask) 0 =? 255). }
  split; [reflexivity|]. split; [|split].
  - rewrite size_of_pair. exact Hlen.
  - exact Hpix.
  - destruct (list_eq_dec Nat.eq_dec [h; w] [h; w]) as [_|Hne];
      [|contradiction]. cbn [bind].
    do 2 f_equal. apply (nth_ext _ _ black black).
    + rewrite length_masked_assign; lia.
    + intros p Hp. rewrite length_masked_assign in Hp by lia.
      rewrite (nth_masked_assign _ _ 0) by lia.
      rewrite Hpix by lia. unfold pixel.
      now destruct (nth p (data mask) 0 =? 255).
Qed.

(** The theorem on [sample_photo] and a mask with one diseased pixel. *)
Lemma diseased_regions_pixelwise_witness :
  exists r,
    Regions.extract_diseased_regions sample_photo one_diseased_mask = Ok r /\
    nth 0 (data r) (0, 0, 0) = (0, 0, 0) /\
    nth 1 (data r) (0, 0, 0) = (20, 180, 40).
Proof.
  destruct (diseased_regions_pixelwise sample_photo one_diseased_mask 2 2)
    as [r [Hr [_ [_ [Hpx _]]]]]; [reflexivity .. |].
  exists r. split; [exact Hr|].
  split; [rewrite (Hpx 0%nat) | rewrite (Hpx 1%nat)]; try lia; reflexivity.
Defined.

(** X11. A mask whose shape differs from the image's is first resized to
    the image: the call equals resizing the mask and extracting with the
    resized one.  It returns an image of the image's shape when neither
    has a side of length 0, and otherwise the [cv2.error] of the resize
    leaves the function. *)
Theorem diseased_regions_resize_mask (image : ndarray rgb) (mask : ndarray Z)
        h w mh mw :
  shape image = [h; w] -> shape mask = [mh; mw] -> [h; w] <> [mh; mw] ->
  Regions.extract_diseased_regions image mask
  = bind (cv2_resize mask (w, h)) (Regions.extract_diseased_regions image) /\
  ((0 < h)%nat /\ (0 < w)%nat /\ (0 < mh)%nat /\ (0 < mw)%nat ->
   exists r, Regions.extract_diseased_regions image mask = Ok r /\
             shape r = [h; w]) /\
  (h = 0%nat \/ w = 0%nat \/ mh = 0%nat \/ mw = 0%nat ->
   exists msg,
     Regions.extract_diseased_regions image mask = Raise (Cv2Error msg)).
Proof.
  intros Hsi Hsm Hne.
  unfold Regions.extract_diseased_regions. rewrite Hsi, Hsm.
  destruct (list_eq_dec Nat.eq_dec [h; w] [mh; mw]) as [E|_];
    [contradiction|].
  split; [|split].
  - destruct (cv2_resize mask (w, h)) as [m'|e] eqn:Hres; [|reflexivity].
    cbn [bind].
    destruct (cv2_resize_ok _ _ _ _ Hres) as [sh [sw [_ [_ [_ [_ [_ ->]]]]]]].
    cbn [shape data].
    destruct (list_eq_dec Nat.eq_dec [h; w] [h; w]) as [_|N];
      [reflexivity | contradiction].
  - intros [Hh [Hw [Hmh Hmw]]].
    rewrite (cv2_resize_positive mask mh mw w h) by assumption.
    cbn [bind]. eexists. split; reflexivity.
  - intro Hz. unfold cv2_resize. rewrite Hsm. cbn [as_mat].
    destruct (Nat.eqb_spec mh 0), (Nat.eqb_spec mw 0); cbn [orb bind];
      eauto.
    destruct (Nat.eqb_spec w 0), (Nat.eqb_spec h 0); cbn [orb bind];
      eauto.
    lia.
Qed.

(** The theorem on [sample_photo] and a mask of one row. *)
Lemma diseased_regions_resize_mask_witness :
  exists r, Regions.extract_diseased_regions sample_photo two_pixel_mask = Ok r
            /\ shape r = [2; 2]%nat.
Proof.
  destruct (diseased_regions_resize_mask sample_photo two_pixel_mask 2 2 1 2)
    as [_ [Hok _]]; [reflexivity | reflexivity | discriminate |].
  apply Hok. repeat split; lia.
Defined.

(** ** The colours of a mask *)

Lemma color_of_injective a b :
  mask_value a -> mask_value b -> color_of a = color_of b -> a = b.
Proof.
  unfold mask_value.
  intros [-> | [-> | ->]] [-> | [-> | ->]]; cbn; congruence.
Qed.

Lemma create_colored_mask_ok (mask : ndarray Z) colored :
  wf mask -> create_colored_mask mask = Ok colored ->
  exists h w, shape mask = [h; w] /\
              colored = mk_ndarray [h; w] (map color_of (data mask)).
Proof.
  intros Hwf. unfold create_colored_mask.
  destruct (shape mask) as [|h [|w [|? ?]]] eqn:Hs; try discriminate.
  intros [= <-]. exists h, w. split; [reflexivity|].
  assert (Hl : length (data mask) = (h * w)%nat)
    by (rewrite Hwf, Hs; apply size_of_pair).
  rewrite <- Hl. now rewrite colored_mask_map.
Qed.

(** X12. On well-formed masks holding only 0, 128 and 255 the colouring
    loses nothing: two masks with the same coloured image are the same
    mask. *)
Theorem colored_mask_injective (m1 m2 : ndarray Z) colored :
  wf m1 -> wf m2 ->
  Forall mask_value (data m1) -> Forall mask_value (data m2) ->
  create_colored_mask m1 = Ok colored ->
  create_colored_mask m2 = Ok colored ->
  m1 = m2.
Proof.
  intros Hw1 Hw2 Hv1 Hv2 Hc1 Hc2.
  destruct (create_colored_mask_ok _ _ Hw1 Hc1) as [h1 [w1 [Hs1 E1]]].
  destruct (create_colored_mask_ok _ _ Hw2 Hc2) as [h2 [w2 [Hs2 E2]]].
  rewrite E1 in E2. inversion E2 as [[Hh Hw Hd]]. subst h2 w2.
  destruct m1 as [s1 d1], m2 as [s2 d2]. cbn [shape data] in *.
  subst s1 s2. f_equal. clear -Hv1 Hv2 Hd.
  revert d2 Hv2 Hd. induction Hv1 as [|a d1 Ha _ IH]; intros [|b d2] Hv2 Hd;
    try discriminate; [reflexivity|].
  inversion Hv2; subst. cbn [map] in Hd. inversion Hd.
  f_equal; [now apply color_of_injective | now apply IH].
Qed.

(** The theorem on [four_pixel_mask] and a squeezed copy of it. *)
Lemma colored_mask_injective_witness :
  squeeze (mk_ndarray [2; 1; 2]%nat [0; 128; 128; 255]) = four_pixel_mask.
Proof.
  apply (colored_mask_injective _ _
           (mk_ndarray [2; 2]%nat
              [(0, 0, 0); (0, 255, 0); (0, 255, 0); (255, 0, 0)]));
    try reflexivity;
    cbn [squeeze four_pixel_mask data];
    repeat (apply Forall_cons; [unfold mask_value; lia|]); constructor.
Defined.

(** ** The gray-world balance on every image *)

(** The three rounds of the loop touch one channel each. *)
Lemma gray_world_data (img : image) :
  data (gray_world_white_balance img) = map (balance_pixel img) (data img).
Proof.
  unfold gray_world_white_balance. cbn [data seq fold_left].
  unfold balance_channel.
  set (mg := mean (entries (data img))).
  assert (Hpx : forall px : list rgb,
    map (map_pixel (fun x => to_uint8 (clip x)))
      ((if negb (Qle_bool (mean (map (channel 2) (data img))) 0)
        then map (fun p => set_channel 2
                   (channel 2 p * (mg / mean (map (channel 2) (data img))))%Q p)
        else fun l => l)
       ((if negb (Qle_bool (mean (map (channel 1) (data img))) 0)
         then map (fun p => set_channel 1
                    (channel 1 p * (mg / mean (map (channel 1) (data img))))%Q p)
         else fun l => l)
        ((if negb (Qle_bool (mean (map (channel 0) (data img))) 0)
          then map (fun p => set_channel 0
                     (channel 0 p * (mg / mean (map (channel 0) (data img))))%Q p)
          else fun l => l)
         (map (map_pixel inject_Z) px))))
    = map (balance_pixel img) px).
  { intro px. unfold balance_pixel, balance_entry. fold mg.
    destruct (negb (Qle_bool (mean (map (channel 0) (data img))) 0)),
             (negb (Qle_bool (mean (map (channel 1) (data img))) 0)),
             (negb (Qle_bool (mean (map (channel 2) (data img))) 0));
      rewrite ?map_map; apply map_ext; intros [[r g] b]; reflexivity. }
  rewrite <- Hpx.
  destruct (negb (Qle_bool (mean (map (channel 0) (data img))) 0)),
           (negb (Qle_bool (mean (map (channel 1) (data img))) 0)),
           (negb (Qle_bool (mean (map (channel 2) (data img))) 0));
    reflexivity.
Qed.

Lemma to_uint8_byte x : byte_range (to_uint8 x).
Proof.
  unfold byte_range, to_uint8.
  pose proof (Z.mod_pos_bound (if Qle_bool 0 x then Qfloor x else Qceiling x)
                              256 ltac:(lia)). lia.
Qed.

Lemma gray_world_valid (img : image) :
  wf img -> valid_image (gray_world_white_balance img).
Proof.
  intro Hwf. split.
  - unfold wf. rewrite gray_world_data, length_map. exact Hwf.
  - rewrite gray_world_data. apply Forall_forall. intros p Hp.
    rewrite in_map_iff in Hp. destruct Hp as [[[r g] b] [<- _]].
    unfold balance_pixel, balance_entry. cbn [valid_pixel].
    repeat split; apply to_uint8_byte.
Qed.









Lemma channel_byte i p : valid_pixel p -> byte_range (channel i p).
Proof.
  destruct p as [[r g] b]. intros [Hr [Hg Hb]].
  destruct i as [|[|i]]; assumption.
Qed.

(** X14. A channel whose mean is 0 is not divided by its mean: the
    balance returns that channel of an image of bytes as it is. *)
Theorem zero_mean_channel_untouched (img : image) i :
  valid_image img -> (i < 3)%nat ->
  (mean (map (channel i) (data img)) == 0)%Q ->
  map (channel i) (data (gray_world_white_balance img))
  = map (channel i) (data img).
Proof.
  intros [_ Hvalid] Hi Hzero. rewrite gray_world_data, map_map.
  apply map_ext_in. intros p Hp.
  rewrite Forall_forall in Hvalid. specialize (Hvalid p Hp).
  assert (Hle : Qle_bool (mean (map (channel i) (data img))) 0 = true).
  { apply Qle_bool_iff. rewrite Hzero. apply Qle_refl. }
  assert (Hentry : balance_entry img i (channel i p) = channel i p).
  { unfold balance_entry. rewrite Hle. cbn [negb].
    apply to_uint8_clip; [reflexivity|].
    apply (channel_byte i p Hvalid). }
  unfold balance_pixel.
  destruct i as [|[|[|i]]]; [| | |lia]; cbn [channel] in *; exact Hentry.
Qed.

(** The theorem on the red channel of [no_red_image]. *)
Lemma zero_mean_channel_untouched_witness :
  map (channel 0) (data (gray_world_white_balance no_red_image)) = [0; 0].
Proof.
  apply (zero_mean_channel_untouched no_red_image 0).
  - split; [reflexivity|].
    repeat (apply Forall_cons;
            [unfold valid_pixel, byte_range; lia|]). constructor.
  - lia.
  - reflexivity.
Defined.

(** X15. [apply_white_balance] never lets a [cv2.error] out: without
    the xphoto module, and when xphoto's balancer raises a [cv2.error], it
    returns the gray-world result, which has the shape of the input and is
    an image of bytes. *)
Theorem white_balance_falls_back `{X : WhiteBalance.XPhoto} (img : image) :
  (WhiteBalance.createSimpleWB_available = false ->
   WhiteBalance.apply_white_balance img = Ok (gray_world_white_balance img)) /\
  (forall msg, WhiteBalance.balanceWhite img = Raise (Cv2Error msg) ->
     WhiteBalance.apply_white_balance img = Ok (gray_world_white_balance img)) /\
  (forall msg, WhiteBalance.apply_white_balance img <> Raise (Cv2Error msg)) /\
  (forall img_wb,
     WhiteBalance.apply_white_balance img = Ok img_wb ->
     WhiteBalance.balanceWhite img <> Ok img_wb ->
     shape img_wb = shape img /\
     (wf img -> valid_image img_wb)).
Proof.
  unfold WhiteBalance.apply_white_balance.
  split; [|split; [|split]].
  - now intros ->.
  - intros msg ->. now destruct WhiteBalance.createSimpleWB_available.
  - intros msg.
    destruct WhiteBalance.createSimpleWB_available; [|discriminate].
    destruct (WhiteBalance.balanceWhite img) as [?|e]; [|destruct e];
      discriminate.
  - intros img_wb Hok Hne.
    assert (E : img_wb = gray_world_white_balance img).
    { destruct WhiteBalance.createSimpleWB_available; [|congruence].
      destruct (WhiteBalance.balanceWhite img) as [?|e]; [|destruct e];
        congruence. }
    subst img_wb. split; [reflexivity | apply gray_world_valid].
Qed.

(** The theorem on an OpenCV without xphoto. *)
Lemma white_balance_falls_back_witness :
  @WhiteBalance.apply_white_balance no_xphoto gray_image
  = Ok (gray_world_white_balance gray_image).
Proof.
  destruct (white_balance_falls_back (X := no_xphoto) gray_image)
    as [Hmissing _].
  apply Hmissing. reflexivity.
Defined.

(** ** Batches *)

(** The loop of [preprocess_batch] from a list [acc] gathered so far. *)
Lemma batch_fold {path} `{Cv2 path} (image_paths : list path) :
  forall acc : list image,
    fold_left
      (fun results img_path =>
         bind results (fun results =>
         bind (preprocess_leaf img_path) (fun preprocessed =>
         match preprocessed with
         | Some img => Ok (results ++ [img])
         | None => Ok results
         end)))
      image_paths (Ok acc)
    = bind (Batch.preprocess_batch image_paths)
           (fun rest => Ok (acc ++ rest)).
Proof.
  unfold Batch.preprocess_batch.
  induction image_paths as [|p ps IH]; intro acc.
  - cbn. now rewrite app_nil_r.
  - cbn [fold_left bind].
    destruct (preprocess_leaf p) as [[img|]|e]; cbn [bind].
    + rewrite IH. rewrite (IH ([] ++ [img])).
      destruct (fold_left _ ps (Ok [])) as [rest|e]; cbn [bind];
        [|reflexivity].
      now rewrite <- app_assoc.
    + apply IH.
    + clear IH. induction ps as [|q qs IHq]; [reflexivity|]. exact IHq.
Qed.

Lemma batch_cons {path} `{Cv2 path} (p : path) (ps : list path) :
  Batch.preprocess_batch (p :: ps)
  = bind (preprocess_leaf p) (fun preprocessed =>
    bind (Batch.preprocess_batch ps) (fun rest =>
    Ok (match preprocessed with
        | Some img => img :: rest
        | None => rest
        end))).
Proof.
  unfold Batch.preprocess_batch at 1. cbn [fold_left bind].
  destruct (preprocess_leaf p) as [[img|]|e]; cbn [bind].
  - apply (batch_fold ps [img]).
  - rewrite (batch_fold ps []).
    now destruct (Batch.preprocess_batch ps).
  - induction ps as [|q qs IHq]; [reflexivity|]. exact IHq.
Qed.

(** X16. When [preprocess_leaf] raises on none of the paths,
    [preprocess_batch] returns the images of the paths that could be
    preprocessed, in the order of the paths, and skips the others: the
    result can be shorter than the list of paths and positions are not
    kept. *)
Theorem batch_keeps_readable_images {path} `{Cv2 path}
        (image_paths : list path) :
  (forall p, In p image_paths -> exists r, preprocess_leaf p = Ok r) ->
  Batch.preprocess_batch image_paths = Ok (returned_images image_paths) /\
  (length (returned_images image_paths) <= length image_paths)%nat.
Proof.
  induction image_paths as [|p ps IH]; intro Hok.
  - split; [reflexivity | cbn; lia].
  - destruct IH as [IHb IHl]; [intros q Hq; apply Hok; now right|].
    rewrite batch_cons, IHb.
    destruct (Hok p (or_introl eq_refl)) as [r Hr].
    unfold returned_images in *. cbn [flat_map]. rewrite Hr. cbn [bind].
    destruct r as [img|]; cbn [app length]; split; try reflexivity; lia.
Qed.

(** The theorem on three paths, the second of which cannot be read. *)
Lemma batch_keeps_readable_images_witness :
  @Batch.preprocess_batch _ sample_cv2
     ["leaf.jpg"; "missing.jpg"; "leaf.jpg"]%string
  = Ok [gray_world_white_balance
          (mk_ndarray [2; 2]%nat
             [(30, 200, 10); (40, 180, 20); (30, 60, 90); (0, 0, 0)]);
        gray_world_white_balance
          (mk_ndarray [2; 2]%nat
             [(30, 200, 10); (40, 180, 20); (30, 60, 90); (0, 0, 0)])].
Proof.
  destruct (batch_keeps_readable_images (H := sample_cv2)
              ["leaf.jpg"; "missing.jpg"; "leaf.jpg"]%string) as [Hb _].
  - intros p [<- | [<- | [<- | []]]]; eexists; reflexivity.
  - rewrite Hb. reflexivity.
Defined.

(** X17. An exception of [preprocess_leaf] is not caught by
    [preprocess_batch]: the first path on which it raises ends the batch
    with that exception, and the images gathered before are lost. *)
Theorem batch_stops_at_exception {path} `{Cv2 path}
        (before after : list path) (p : path) e :
  (forall q, In q before -> exists r, preprocess_leaf q = Ok r) ->
  preprocess_leaf p = Raise e ->
  Batch.preprocess_batch (before ++ p :: after) = Raise e.
Proof.
  intros Hbefore Hp. induction before as [|q qs IH]; cbn [app].
  - rewrite batch_cons, Hp. reflexivity.
  - rewrite batch_cons.
    destruct (Hbefore q (or_introl eq_refl)) as [r ->]. cbn [bind].
    rewrite IH; [reflexivity|]. intros q' Hq'. apply Hbefore. now right.
Qed.

(** The theorem on an OpenCV whose sharpening fails. *)
Lemma batch_stops_at_exception_witness :
  @Batch.preprocess_batch _ failing_cv2
     ["missing.jpg"; "leaf.jpg"; "other.jpg"]%string
  = Raise (Cv2Error "addWeighted").
Proof.
  apply (batch_stops_at_exception (H := failing_cv2)
           ["missing.jpg"%string] ["other.jpg"%string] "leaf.jpg"%string).
  - intros q [<- | []]. eexists. reflexivity.
  - reflexivity.
Defined.

(** ** Failure of the preprocessing *)

(** A path on which [preprocess_leaf] returns [None] leaves no trace in
    a batch. *)
Lemma batch_skips_none {path} `{Cv2 path} (before after : list path) p :
  preprocess_leaf p = Ok None ->
  Batch.preprocess_batch (before ++ p :: after)
  = Batch.preprocess_batch (before ++ after).
Proof.
  intro Hp. induction before as [|q qs IH]; cbn [app].
  - rewrite batch_cons, Hp. cbn [bind].
    now destruct (Batch.preprocess_batch after).
  - now rewrite !batch_cons, IH.
Qed.

(** The handlers decode the value of the field [image] when there is one. *)
Lemma analyze_leaf_try_image {path} `{Backend path} get_json v :
  image_value get_json = Some v ->
  analyze_leaf_try get_json = analyze_leaf_try (request_of v).
Proof.
  destruct get_json as [[| | | | | |items]|e]; try discriminate.
  cbn [image_value]. intro Hv.
  unfold analyze_leaf_try, request_of. cbn [bind].
  assert (Ht : truthy (JObject items) = true).
  { destruct items; [discriminate | reflexivity]. }
  rewrite Ht. cbn [negb truthy contains getitem bind lookup].
  rewrite Hv. cbn [bind negb String.eqb Ascii.eqb Bool.eqb]. reflexivity.
Qed.

(** C6 as stated fails: on a file that cannot be read [preprocess_leaf]
    raises nothing and returns [None], and a batch goes on with the next
    path instead of being aborted. *)
Lemma unreadable_image_is_no_error :
  imread (Cv2 := sample_cv2) "missing.jpg"%string = None /\
  preprocess_leaf (H := sample_cv2) "missing.jpg"%string = Ok None /\
  (forall e,
     preprocess_leaf (H := sample_cv2) "missing.jpg"%string <> Raise e) /\
  exists img,
    Batch.preprocess_batch (H := sample_cv2)
      ["missing.jpg"; "leaf.jpg"]%string = Ok [img].
Proof.
  split; [reflexivity|]. split; [reflexivity|].
  split; [discriminate|]. eexists. reflexivity.
Qed.

(** C6, amended. On a path that [cv2.imread] cannot read
    [preprocess_leaf] raises no error and substitutes no image: it
    returns [None].  What follows is the caller's choice:
    [preprocess_batch] skips the path and goes on, and [analyze_leaf], for
    a request whose image was decoded and taken for a leaf, answers with
    the status 500 and the message that preprocessing failed. *)
Theorem preprocessing_failure_is_reported {path} (B : Backend path)
        (image_path : path) :
  imread image_path = None ->
  preprocess_leaf image_path = Ok None /\
  (forall before after,
     Batch.preprocess_batch (before ++ image_path :: after)
     = Batch.preprocess_batch (before ++ after)) /\
  (forall get_json base64_image image_array,
     image_value get_json = Some base64_image ->
     decode_value base64_image = Ok image_array ->
     is_valid_leaf_image image_array = Ok true ->
     imwrite_temp image_array = image_path ->
     analyze_leaf get_json
     = mk_response 500 (ErrorBody "Analysis failed: Preprocessing failed")).
Proof.
  intro Hread.
  assert (Hpre : preprocess_leaf image_path = Ok None).
  { unfold preprocess_leaf. now rewrite Hread. }
  split; [exact Hpre|]. split.
  - intros before after. now apply batch_skips_none.
  - intros get_json base64_image image_array Hv Hdecode Hleaf Htemp.
    unfold analyze_leaf. rewrite (analyze_leaf_try_image _ _ Hv).
    unfold analyze_leaf_try, request_of.
    cbn [bind truthy negb contains getitem lookup String.eqb Ascii.eqb
         Bool.eqb].
    rewrite Hdecode. cbn [bind]. rewrite Hleaf. cbn [bind negb].
    rewrite Htemp, Hpre. reflexivity.
Qed.

(** The theorem on a backend whose temporary file cannot be read. *)
Lemma preprocessing_failure_is_reported_witness :
  analyze_leaf (H := unreadable_backend) (image_request "aGk=")
  = mk_response 500 (ErrorBody "Analysis failed: Preprocessing failed").
Proof.
  destruct (preprocessing_failure_is_reported
              unreadable_backend "tmp.jpg"%string eq_refl)
    as [_ [_ Hreport]].
  apply (Hreport (image_request "aGk=") (JString "aGk=") gray_image);
    reflexivity.
Defined.

(** ** The responses of the request handler *)

(** A dict with the key [image] is true and contains the key. *)
Lemma image_value_dict get_json v :
  image_value get_json = Some v ->
  exists items, get_json = Ok (JObject items) /\ lookup "image" items = Some v
                /\ truthy (JObject items) = true.
Proof.
  destruct get_json as [[| | | | | |items]|e]; try discriminate.
  cbn [image_value]. intro Hv. exists items. repeat split; [exact Hv|].
  destruct items; [discriminate | reflexivity].
Qed.

(** The handler on a request that carries the value [v]. *)
Lemma analyze_leaf_request {path} `{Backend path} v :
  analyze_leaf_try (request_of v)
  = bind (decode_value v) (fun image_array =>
    bind (is_valid_leaf_image image_array) (fun is_leaf =>
    if negb is_leaf then Ok (mk_response 200 NotLeaf)
    else
      bind (preprocess_leaf (imwrite_temp image_array))
           (fun preprocessed_image =>
      match preprocessed_image with
      | None => Raise (ValueError "Preprocessing failed")
      | Some preprocessed_image =>
          match predict_segmentation (imwrite_temp preprocessed_image) with
          | None => Raise (ValueError "Segmentation failed")
          | Some mask =>
              Ok (mk_response 200 (Analysis mask (maskStats mask)))
          end
      end))).
Proof. reflexivity. Qed.

(** Without a value to decode the handler answers 400 or lets an
    exception of the first lines through. *)
Lemma analyze_leaf_try_no_image {path} `{Backend path} get_json :
  image_value get_json = None ->
  (analyze_leaf_try get_json
   = Ok (mk_response 400 (ErrorBody "No image provided")) /\
   exists data, get_json = Ok data /\
     (truthy data = false \/ contains not_iterable "image" data = Ok false))
  \/
  (exists e, analyze_leaf_try get_json = Raise e /\
   forall data, get_json = Ok data ->
     truthy data = true /\ contains not_iterable "image" data <> Ok false).
Proof.
  intro Hv. destruct get_json as [data|e].
  2:{ right. exists e. split; [reflexivity | discriminate]. }
  unfold analyze_leaf_try. cbn [bind].
  destruct (truthy data) eqn:Ht; cbn [negb bind].
  2:{ left. split; [reflexivity|]. exists data. auto. }
  destruct data as [|b|z|x|s|items|items]; cbn [contains bind].
  - discriminate.
  - right. eexists. split; [reflexivity|].
    intros d [= <-]. split; [exact Ht | discriminate].
  - right. eexists. split; [reflexivity|].
    intros d [= <-]. split; [exact Ht | discriminate].
  - right. eexists. split; [reflexivity|].
    intros d [= <-]. split; [exact Ht | discriminate].
  - destruct (substring "image" s) eqn:Hs; cbn [negb getitem bind].
    + right. eexists. split; [reflexivity|].
      intros d [= <-]. split; [exact Ht|]. cbn [contains]. congruence.
    + left. split; [reflexivity|]. eexists. split; [reflexivity|].
      right. cbn [contains]. now rewrite Hs.
  - destruct (existsb _ items) eqn:Hs; cbn [negb getitem bind].
    + right. eexists. split; [reflexivity|].
      intros d [= <-]. split; [exact Ht|]. cbn [contains]. congruence.
    + left. split; [reflexivity|]. eexists. split; [reflexivity|].
      right. cbn [contains]. now rewrite Hs.
  - cbn [image_value] in Hv. rewrite Hv. cbn [negb].
    left. split; [reflexivity|]. eexists. split; [reflexivity|].
    right. cbn [contains]. now rewrite Hv.
Qed.

(** From the decoding on the handler answers 200 or 500. *)
Lemma decoded_responses {path} `{Backend path} v :
  (status (analyze_leaf (request_of v)) = 200 \/
   status (analyze_leaf (request_of v)) = 500) /\
  (status (analyze_leaf (request_of v)) = 500 ->
   exists e, payload (analyze_leaf (request_of v))
             = ErrorBody ("Analysis failed: " ++ str e)) /\
  (status (analyze_leaf (request_of v)) = 200 ->
   payload (analyze_leaf (request_of v)) = NotLeaf \/
   exists mask,
     payload (analyze_leaf (request_of v)) = Analysis mask (maskStats mask)).
Proof.
  unfold analyze_leaf. rewrite analyze_leaf_request.
  destruct (decode_value v) as [img|e]; cbn [bind].
  2:{ cbn. repeat split; eauto; discriminate. }
  destruct (is_valid_leaf_image img) as [[|]|e]; cbn [bind negb].
  3:{ cbn. repeat split; eauto; discriminate. }
  2:{ cbn. repeat split; eauto; discriminate. }
  destruct (preprocess_leaf (imwrite_temp img)) as [[pre|]|e]; cbn [bind].
  3:{ cbn. repeat split; eauto; discriminate. }
  2:{ cbn. repeat split; eauto; try discriminate.
      intros _. exists (ValueError "Preprocessing failed"). reflexivity. }
  destruct (predict_segmentation (imwrite_temp pre)) as [mask|].
  - cbn. repeat split; eauto; discriminate.
  - cbn. repeat split; eauto; try discriminate.
    intros _. exists (ValueError "Segmentation failed"). reflexivity.
Qed.

(** X18. [analyze_leaf] answers every request with the status 200, 400
    or 500.  The status is 400, with the message that no image was
    provided, exactly when [request.get_json()] returns a body that is
    false or does not contain [image]; when [get_json] raises, as on a
    body that is no JSON, the status is 500.  A 500 response carries the
    text of an exception after "Analysis failed: "; a 200 response is
    either the answer that the image shows no leaf or a mask with the
    statistics of that mask. *)
Theorem analyze_leaf_responses {path} (B : Backend path)
        (get_json : result json) :
  (status (analyze_leaf get_json) = 400 <->
   exists data, get_json = Ok data /\
     (truthy data = false \/ contains not_iterable "image" data = Ok false)) /\
  (status (analyze_leaf get_json) = 400 ->
   payload (analyze_leaf get_json) = ErrorBody "No image provided") /\
  (status (analyze_leaf get_json) = 200 \/
   status (analyze_leaf get_json) = 400 \/
   status (analyze_leaf get_json) = 500) /\
  (status (analyze_leaf get_json) = 500 ->
   exists e, payload (analyze_leaf get_json)
             = ErrorBody ("Analysis failed: " ++ str e)) /\
  (status (analyze_leaf get_json) = 200 ->
   payload (analyze_leaf get_json) = NotLeaf \/
   exists mask,
     payload (analyze_leaf get_json) = Analysis mask (maskStats mask)) /\
  (forall e, get_json = Raise e ->
     analyze_leaf get_json
     = mk_response 500 (ErrorBody ("Analysis failed: " ++ str e))).
Proof.
  assert (Hlast : forall e, get_json = Raise e ->
            analyze_leaf get_json
            = mk_response 500 (ErrorBody ("Analysis failed: " ++ str e)))
    by (intros e ->; reflexivity).
  destruct (image_value get_json) as [v|] eqn:Hv.
  - destruct (image_value_dict _ _ Hv) as [items [Hjson [Hlook Htrue]]].
    assert (Hnot : ~ exists data, get_json = Ok data /\
               (truthy data = false
                \/ contains not_iterable "image" data = Ok false)).
    { intros [data [Hd [Hf | Hc]]]; rewrite Hjson in Hd;
        inversion Hd; subst data.
      - congruence.
      - cbn [contains] in Hc. rewrite Hlook in Hc. discriminate. }
    assert (E : analyze_leaf get_json = analyze_leaf (request_of v)).
    { unfold analyze_leaf. now rewrite (analyze_leaf_try_image _ _ Hv). }
    rewrite E. destruct (decoded_responses v) as [Hst [H500 H200]].
    split; [|split; [|split; [|split; [|split]]]].
    + split; [intro H4; destruct Hst; congruence | intro Hl; now destruct Hnot].
    + intro H4. destruct Hst; congruence.
    + destruct Hst; auto.
    + exact H500.
    + exact H200.
    + intros e He. rewrite Hjson in He. discriminate.
  - unfold analyze_leaf in *.
    destruct (analyze_leaf_try_no_image get_json Hv)
      as [[E Hlacks] | [e [E Hhas]]]; rewrite E in *; cbn [status payload].
    + split; [split; [intros _; exact Hlacks | reflexivity]|].
      split; [reflexivity|]. split; [auto|].
      split; [discriminate|]. split; [discriminate | exact Hlast].
    + split.
      { split; [discriminate|].
        intros [data [Hd Hl]]. destruct (Hhas data Hd) as [Ht Hc].
        destruct Hl; congruence. }
      split; [discriminate|]. split; [auto|].
      split; [intros _; eauto|]. split; [discriminate | exact Hlast].
Qed.

(** The theorem on a request without an image and on a body that is no
    JSON. *)
Lemma analyze_leaf_responses_witness :
  status (analyze_leaf (H := sample_backend) (Ok (JObject []))) = 400 /\
  status (analyze_leaf (H := sample_backend) text_request) = 500 /\
  status (analyze_leaf (H := sample_backend) string_request) = 500.
Proof.
  destruct (analyze_leaf_responses sample_backend (Ok (JObject [])))
    as [H400 _].
  destruct (analyze_leaf_responses sample_backend text_request)
    as [_ [_ [_ [_ [_ Hraise]]]]].
  destruct (analyze_leaf_responses sample_backend string_request)
    as [H400s [_ [Hcases _]]].
  split; [|split].
  - apply H400. eexists. split; [reflexivity | left; reflexivity].
  - rewrite (Hraise _ eq_refl). reflexivity.
  - destruct Hcases as [H | [H | H]]; [discriminate H | | exact H].
    apply H400s in H. destruct H as [data [Hd [Hf | Hc]]];
      inversion Hd; subst data; discriminate.
Defined.

(** X19. [analyze_leaf] returns a mask exactly when the field [image] of
    the request holds a string that decodes, is taken for a leaf, is
    preprocessed and is segmented, in that order, the second temporary
    file holding the preprocessed image; the statistics are those of the
    returned mask.  It answers that the image shows no leaf exactly when
    the string decodes and the leaf test says no. *)
Theorem analyze_leaf_success {path} (B : Backend path)
        (get_json : result json) :
  (forall mask stats,
     analyze_leaf get_json = mk_response 200 (Analysis mask stats) <->
     exists s image_array preprocessed,
       image_value get_json = Some (JString s) /\
       decode_base64_image s = Ok image_array /\
       is_valid_leaf_image image_array = Ok true /\
       preprocess_leaf (imwrite_temp image_array) = Ok (Some preprocessed) /\
       predict_segmentation (imwrite_temp preprocessed) = Some mask /\
       stats = maskStats mask) /\
  (analyze_leaf get_json = mk_response 200 NotLeaf <->
   exists s image_array,
     image_value get_json = Some (JString s) /\
     decode_base64_image s = Ok image_array /\
     is_valid_leaf_image image_array = Ok false).
Proof.
  destruct (image_value get_json) as [v|] eqn:Hv.
  2:{ assert (Hno : forall r, analyze_leaf get_json = mk_response 200 r ->
                              False).
      { intros r. unfold analyze_leaf.
        destruct (analyze_leaf_try_no_image get_json Hv)
          as [[-> _] | [e [-> _]]]; discriminate. }
      split; [intros mask stats|]; split;
        try (intro H; destruct (Hno _ H)).
      - intros [s [? [? [H _]]]]. discriminate.
      - intros [s [? [H _]]]. discriminate. }
  assert (E : analyze_leaf get_json = analyze_leaf (request_of v)).
  { unfold analyze_leaf. now rewrite (analyze_leaf_try_image _ _ Hv). }
  rewrite E. clear E Hv. unfold analyze_leaf. rewrite analyze_leaf_request.
  destruct v as [|b|z|x|s|items|items];
    try (cbn [decode_value bind]; split; [intros mask stats|]; split;
         [discriminate | | discriminate |];
         [intros [s' [? [? [H _]]]] | intros [s' [? [H _]]]];
         discriminate).
  cbn [decode_value]. split.
  - intros mask stats. split.
    + destruct (decode_base64_image s) as [img|e] eqn:Hdec; cbn [bind];
        [|discriminate].
      destruct (is_valid_leaf_image img) as [[|]|e] eqn:Hleaf;
        cbn [bind negb]; try discriminate.
      destruct (preprocess_leaf (imwrite_temp img)) as [[pre|]|e] eqn:Hpre;
        cbn [bind]; try discriminate.
      destruct (predict_segmentation (imwrite_temp pre)) as [m|] eqn:Hm;
        [|discriminate].
      intros [= <- <-]. exists s, img, pre. repeat split; assumption.
    + intros [s' [img [pre [[= <-] [-> [Hleaf [Hpre [Hmask ->]]]]]]]].
      cbn [bind]. rewrite Hleaf. cbn [bind negb]. rewrite Hpre. cbn [bind].
      now rewrite Hmask.
  - split.
    + destruct (decode_base64_image s) as [img|e] eqn:Hdec; cbn [bind];
        [|discriminate].
      destruct (is_valid_leaf_image img) as [[|]|e] eqn:Hleaf;
        cbn [bind negb]; try discriminate.
      * destruct (preprocess_leaf (imwrite_temp img)) as [[pre|]|e];
          cbn [bind]; try discriminate.
        destruct (predict_segmentation (imwrite_temp pre)); discriminate.
      * intros _. exists s, img. repeat split; assumption.
    + intros [s' [img [[= <-] [-> Hleaf]]]]. cbn [bind]. now rewrite Hleaf.
Qed.

(** The theorem on the sample backend. *)
Lemma analyze_leaf_success_witness :
  analyze_leaf (H := sample_backend) (image_request "aGk=")
  = mk_response 200 (Analysis four_pixel_mask (maskStats four_pixel_mask)).
Proof.
  destruct (analyze_leaf_success sample_backend (image_request "aGk="))
    as [Hok _].
  apply Hok. exists "aGk="%string. eexists. eexists.
  split; [reflexivity|]. split; [reflexivity|]. split; [reflexivity|].
  split; [reflexivity|]. split; reflexivity.
Defined.

Lemma count_le (l : list Z) :
  0 <= count_eq 0 l /\ 0 <= count_eq 128 l /\ 0 <= count_eq 255 l /\
  count_eq 0 l + count_eq 128 l + count_eq 255 l <= Z.of_nat (length l) /\
  (count_eq 0 l + count_eq 128 l + count_eq 255 l = Z.of_nat (length l)
   -> Forall mask_value l).
Proof.
  unfold count_eq. induction l as [|v l IH].
  - cbn. repeat split; try lia. constructor.
  - cbn [filter length].
    destruct IH as [H0 [H1 [H2 [Hle Hall]]]].
    destruct (Z.eqb_spec 0 v), (Z.eqb_spec 128 v), (Z.eqb_spec 255 v);
      cbn [length]; try lia;
      (repeat split; try lia;
       intro Heq; constructor; [unfold mask_value; lia | apply Hall; lia]).
Qed.

Lemma percent_Q (a : Z) (p : positive) :
  (percent (F:=Q) a (Zpos p) == (100 * a) # p)%Q.
Proof.
  unfold percent. cbn [fmul fdiv of_int exact].
  unfold Qeq, Qdiv, Qmult, Qinv, inject_Z. cbn [Qnum Qden]. lia.
Qed.

(** X20. For any non-empty mask, also one with stray values, each of
    the three percentages is at least 0 and in exact arithmetic they add
    up to at most 100; they add up to 100 exactly when every pixel is 0,
    128 or 255. *)
Theorem mask_statistics_bounds (mask : ndarray Z) :
  wf mask -> size mask <> 0%nat ->
  (0 <= backgroundPercent (maskStats (F:=Q) mask))%Q /\
  (0 <= healthyPercent (maskStats (F:=Q) mask))%Q /\
  (0 <= diseasedPercent (maskStats (F:=Q) mask))%Q /\
  (backgroundPercent (maskStats (F:=Q) mask)
   + healthyPercent (maskStats mask)
   + diseasedPercent (maskStats mask) <= 100)%Q /\
  ((backgroundPercent (maskStats (F:=Q) mask)
    + healthyPercent (maskStats mask)
    + diseasedPercent (maskStats mask) == 100)%Q
   <-> Forall mask_value (data mask)).
Proof.
  intros Hwf Hsize. unfold maskStats.
  cbn [backgroundPercent healthyPercent diseasedPercent].
  unfold wf in Hwf. unfold size in *. rewrite <- Hwf in *.
  destruct (count_le (data mask)) as [H0 [H1 [H2 [Hle Hall]]]].
  pose proof (count_partition (data mask)) as Hpart.
  assert (Hp : exists p, Z.of_nat (length (data mask)) = Zpos p).
  { destruct (Z.of_nat (length (data mask))) eqn:E; try lia. eauto. }
  destruct Hp as [p Hp]. rewrite Hp in *. rewrite !percent_Q.
  set (a := count_eq 0 (data mask)) in *.
  set (b := count_eq 128 (data mask)) in *.
  set (c := count_eq 255 (data mask)) in *.
  clearbody a b c.
  assert (Hsum : ((100 * a # p) + (100 * b # p) + (100 * c # p)
                  == (100 * (a + b + c)) # p)%Q).
  { unfold Qeq, Qplus. cbn [Qnum Qden]. nia. }
  split; [unfold Qle; cbn [Qnum Qden]; lia|].
  split; [unfold Qle; cbn [Qnum Qden]; lia|].
  split; [unfold Qle; cbn [Qnum Qden]; lia|].
  split; [rewrite Hsum; unfold Qle; cbn [Qnum Qden]; lia|].
  rewrite Hsum. unfold Qeq. cbn [Qnum Qden]. split.
  - intro H. apply Hall. lia.
  - intro Hv. specialize (Hpart Hv). lia.
Qed.

(** The theorem on [odd_mask], which holds the value 7. *)
Lemma mask_statistics_bounds_witness :
  (backgroundPercent (maskStats (F:=Q) odd_mask)
   + healthyPercent (maskStats odd_mask)
   + diseasedPercent (maskStats odd_mask) <= 100)%Q /\
  ~ (backgroundPercent (maskStats (F:=Q) odd_mask)
     + healthyPercent (maskStats odd_mask)
     + diseasedPercent (maskStats odd_mask) == 100)%Q.
Proof.
  destruct (mask_statistics_bounds odd_mask) as [_ [_ [_ [Hle Hiff]]]].
  - reflexivity.
  - discriminate.
  - split; [exact Hle|]. intro Heq. apply Hiff in Heq.
    unfold odd_mask in Heq. cbn [data] in Heq.
    rewrite Forall_forall in Heq.
    assert (H7 : mask_value 7) by (apply Heq; cbn; tauto).
    unfold mask_value in H7. lia.
Defined.

(** A mask in a response is a mask that the segmentation returned. *)
Lemma analysis_mask_segmented {path} `{Backend path} get_json mask stats :
  analyze_leaf get_json = mk_response 200 (Analysis mask stats) ->
  exists p, predict_segmentation p = Some mask.
Proof.
  destruct (image_value get_json) as [v|] eqn:Hv.
  2:{ unfold analyze_leaf.
      destruct (analyze_leaf_try_no_image get_json Hv)
        as [[-> _] | [e [-> _]]]; discriminate. }
  unfold analyze_leaf. rewrite (analyze_leaf_try_image _ _ Hv).
  rewrite analyze_leaf_request.
  destruct (decode_value v) as [img|e]; cbn [bind]; [|discriminate].
  destruct (is_valid_leaf_image img) as [[|]|e]; cbn [bind negb];
    try discriminate.
  destruct (preprocess_leaf (imwrite_temp img)) as [[pre|]|e];
    cbn [bind]; try discriminate.
  destruct (predict_segmentation (imwrite_temp pre)) as [m|] eqn:Hm;
    [|discriminate].
  intros [= <- _]. eauto.
Qed.

(** X21. When every mask that the segmentation of the backend returns is
    one that [predict_segmentation] computes, every mask that
    [analyze_leaf] returns is non-empty, well-formed and holds only 0,
    128 and 255, so the three percentages of the response add up to 100
    in exact arithmetic.  [predict_segmentation] is described for the
    outputs of the network whose decoded mask has one or two axes, which
    are all outputs of three axes but a single number. *)
Theorem analysis_percentages_add_up {path M} (B : Backend path)
        (U : Inference.Unet M) (model : option M)
        (get_json : result json) mask stats :
  (forall p m, predict_segmentation p = Some m ->
               Inference.predict_segmentation p model = Ok (Some m)) ->
  analyze_leaf get_json = mk_response 200 (Analysis mask stats) ->
  wf mask /\ size mask <> 0%nat /\ Forall mask_value (data mask) /\
  (backgroundPercent (maskStats (F:=Q) mask)
   + healthyPercent (maskStats mask)
   + diseasedPercent (maskStats mask) == 100)%Q.
Proof.
  intros Hpredict Hresp.
  destruct (analysis_mask_segmented _ _ _ Hresp) as [p Hp].
  apply Hpredict in Hp.
  destruct (predict_segmentation_inv _ _ _ Hp)
    as [image [h [w [prediction [decoded [_ [_ [Hdec Hres]]]]]]]].
  pose proof (process_unet_output_values _ _ _ Hdec) as Hdv.
  destruct (cv2_resize_values _ _ _ _ Hres Hdv) as [Hs [Hh [Hw [Hwf Hv]]]].
  assert (Hsize : size mask <> 0%nat).
  { unfold size. rewrite Hs, size_of_pair. nia. }
  repeat split; try assumption.
  unfold maskStats. cbn [backgroundPercent healthyPercent diseasedPercent].
  apply percent_sum; [lia|].
  rewrite count_partition by exact Hv. unfold wf in Hwf.
  unfold size. now rewrite Hwf.
Qed.

(** The theorem on the backend of the sample network. *)
Lemma analysis_percentages_add_up_witness :
  exists mask stats,
    analyze_leaf (H := inference_backend) (image_request "aGk=")
    = mk_response 200 (Analysis mask stats) /\
    (backgroundPercent (maskStats (F:=Q) mask)
     + healthyPercent (maskStats mask)
     + diseasedPercent (maskStats mask) == 100)%Q.
Proof.
  eexists. eexists. split; [vm_compute; reflexivity|].
  eapply (analysis_percentages_add_up inference_backend sample_unet
            (Some tt) (image_request "aGk=")).
  - intros p m. cbn [predict_segmentation inference_backend].
    destruct (Inference.predict_segmentation p (Some tt)) as [r|e];
      [intros ->; reflexivity | discriminate].
  - vm_compute. reflexivity.
Defined.

(** ** The serverless handler *)

Lemma split_no_sep c s : Api.contains c s = false -> Api.split c s = [s].
Proof.
  induction s as [|a s IH]; [reflexivity|]. cbn.
  destruct (Ascii.eqb a c); [discriminate|]. intro H. now rewrite IH.
Qed.

Lemma split_append c (prefix rest : string) :
  Api.contains c prefix = false ->
  Api.split c (prefix ++ String c rest) = prefix :: Api.split c rest.
Proof.
  induction prefix as [|a prefix IH]; cbn.
  - now rewrite Ascii.eqb_refl.
  - destruct (Ascii.eqb a c); [discriminate|]. intro H. now rewrite IH.
Qed.

Lemma contains_append c (prefix rest : string) :
  Api.contains c (prefix ++ String c rest) = true.
Proof.
  induction prefix as [|a prefix IH]; cbn.
  - now rewrite Ascii.eqb_refl.
  - now destruct (Ascii.eqb a c).
Qed.

Lemma split_parts_no_sep c s :
  Forall (fun part => Api.contains c part = false) (Api.split c s).
Proof.
  induction s as [|a s IH]; cbn.
  - repeat constructor.
  - destruct (Ascii.eqb a c) eqn:E; [constructor; [reflexivity | exact IH]|].
    destruct (Api.split c s) as [|head tail].
    + repeat constructor. cbn. now rewrite E.
    + inversion IH; subst. constructor; [cbn; now rewrite E | assumption].
Qed.

(** X22. The prefix removal of the serverless [decode_base64_image]:
    a string without a comma is kept; of [prefix,payload] the payload is
    kept; a payload is cut at its own first comma; the result never holds
    a comma, and removing twice is removing once. *)
Theorem strip_data_url_payload :
  (forall s, Api.contains ","%char s = false -> Api.strip_data_url s = s) /\
  (forall prefix payload,
     Api.contains ","%char prefix = false ->
     Api.contains ","%char payload = false ->
     Api.strip_data_url (prefix ++ String ","%char payload) = payload) /\
  (forall prefix payload rest,
     Api.contains ","%char prefix = false ->
     Api.contains ","%char payload = false ->
     Api.strip_data_url
       (prefix ++ String ","%char (payload ++ String ","%char rest))
     = payload) /\
  (forall s, Api.contains ","%char (Api.strip_data_url s) = false) /\
  (forall s, Api.strip_data_url (Api.strip_data_url s) = Api.strip_data_url s).
Proof.
  assert (Hfree : forall s,
            Api.contains ","%char s = false -> Api.strip_data_url s = s).
  { intros s H. unfold Api.strip_data_url. now rewrite H. }
  assert (Hno : forall s,
            Api.contains ","%char (Api.strip_data_url s) = false).
  { intro s. unfold Api.strip_data_url.
    destruct (Api.contains ","%char s) eqn:E; [|exact E].
    pose proof (split_parts_no_sep ","%char s) as Hparts.
    destruct (Api.split ","%char s) as [|a [|b l]]; try reflexivity.
    inversion Hparts as [|? ? _ Hrest]. now inversion Hrest. }
  split; [exact Hfree|]. split; [|split; [|split]].
  - intros prefix payload Hp Hq. unfold Api.strip_data_url.
    rewrite contains_append, split_append by exact Hp.
    now rewrite split_no_sep.
  - intros prefix payload rest Hp Hq. unfold Api.strip_data_url.
    rewrite contains_append, split_append by exact Hp.
    now rewrite split_append.
  - exact Hno.
  - intro s. apply Hfree, Hno.
Qed.

(** The theorem on a JPEG data URL. *)
Lemma strip_data_url_payload_witness :
  Api.strip_data_url "data:image/jpeg;base64,aGk="%string = "aGk="%string.
Proof.
  destruct strip_data_url_payload as [_ [Hurl _]].
  apply (Hurl "data:image/jpeg;base64"%string "aGk="%string); reflexivity.
Defined.

(** The serverless handler decodes the value of the field [image] when
    there is one, and otherwise answers as the Flask handler. *)
Lemma api_analyze_try_image {path} (S : Api.Serverless path) get_json v :
  image_value get_json = Some v ->
  Api.analyze_try get_json = Api.analyze_try (request_of v).
Proof.
  destruct get_json as [[| | | | | |items]|e]; try discriminate.
  cbn [image_value]. intro Hv.
  unfold Api.analyze_try, request_of. cbn [bind].
  assert (Ht : truthy (JObject items) = true).
  { destruct items; [discriminate | reflexivity]. }
  rewrite Ht. cbn [negb truthy contains getitem bind lookup].
  rewrite Hv. cbn [bind negb String.eqb Ascii.eqb Bool.eqb]. reflexivity.
Qed.

Lemma api_analyze_try_no_image {path} (S : Api.Serverless path) get_json :
  image_value get_json = None ->
  Api.analyze_try get_json = analyze_leaf_try (H := Api.backend) get_json.
Proof.
  intro Hv. destruct get_json as [data|e]; [|reflexivity].
  unfold Api.analyze_try, analyze_leaf_try. cbn [bind].
  destruct (truthy data); cbn [negb bind]; [|reflexivity].
  destruct data as [|b|z|x|s|items|items]; cbn [contains bind];
    try reflexivity.
  cbn [image_value] in Hv. rewrite Hv. reflexivity.
Qed.

(** The serverless handler on a request that carries the string [s]. *)
Lemma api_analyze_request {path} (S : Api.Serverless path) s :
  Api.analyze_try (request_of (JString s))
  = bind (decode_base64_image (Backend := Api.backend)
            (Api.strip_data_url s)) (fun image_array =>
    bind (is_valid_leaf_image (Backend := Api.backend) image_array)
         (fun is_leaf =>
    if negb is_leaf then Ok (mk_response 200 NotLeaf)
    else if negb Api.model_loaded then
      Ok (mk_response 500 (ErrorBody "Model not loaded"))
    else
      bind (preprocess_leaf (H := cv2 (Backend := Api.backend))
              (imwrite_temp (Backend := Api.backend) image_array))
           (fun preprocessed_image =>
      match preprocessed_image with
      | None => Raise (ValueError "Preprocessing failed")
      | Some preprocessed_image =>
          match predict_segmentation (Backend := Api.backend)
                  (imwrite_temp (Backend := Api.backend)
                     preprocessed_image) with
          | None => Raise (ValueError "Segmentation failed")
          | Some mask =>
              Ok (mk_response 200 (Analysis mask (maskStats mask)))
          end
      end))).
Proof. reflexivity. Qed.

(** X23. With a loaded model the serverless [analyze] answers as
    [analyze_leaf] of the Flask application answers the request whose
    image string has lost its data URL prefix; a request without an image
    is answered as [analyze_leaf] answers it.  The requests whose field
    [image] holds a value that is no string are left out: both handlers
    answer them with the status 500, with texts of their own. *)
Theorem api_analyze_with_model {path} (S : Api.Serverless path)
        (get_json : result json) :
  Api.model_loaded = true ->
  (forall v, image_value get_json = Some v -> exists s, v = JString s) ->
  Api.analyze get_json
  = analyze_leaf (H := Api.backend) (strip_request get_json).
Proof.
  intros Hm Hstr. unfold Api.analyze, analyze_leaf, strip_request.
  destruct (image_value get_json) as [v|] eqn:Hv.
  - destruct (Hstr v eq_refl) as [s ->].
    rewrite (api_analyze_try_image _ _ _ Hv), api_analyze_request.
    rewrite analyze_leaf_request. cbn [decode_value].
    destruct (decode_base64_image (Api.strip_data_url s)) as [img|e];
      cbn [bind]; [|reflexivity].
    destruct (is_valid_leaf_image img) as [[|]|e]; cbn [bind negb];
      try reflexivity.
    rewrite Hm. reflexivity.
  - now rewrite (api_analyze_try_no_image _ _ Hv).
Qed.

(** The theorem on a data URL. *)
Lemma api_analyze_with_model_witness :
  Api.analyze (H := loaded_serverless)
              (image_request "data:image/jpeg;base64,aGk=")
  = analyze_leaf (H := sample_backend) (request_of (JString "aGk=")).
Proof.
  apply (api_analyze_with_model loaded_serverless
           (image_request "data:image/jpeg;base64,aGk=")).
  - reflexivity.
  - intros v [= <-]. eauto.
Defined.

(** X24. Without a model the serverless [analyze] never returns a mask.
    A request whose image decodes and is taken for a leaf gets the status
    500 with the message "Model not loaded", which does not start with
    "Analysis failed: "; every other request (its field [image], if any,
    holding a string) is answered as [analyze_leaf] answers the request
    without the data URL prefix. *)
Theorem api_analyze_without_model {path} (S : Api.Serverless path)
        (get_json : result json) :
  Api.model_loaded = false ->
  (forall s image_array,
     image_value get_json = Some (JString s) ->
     decode_base64_image (Backend := Api.backend) (Api.strip_data_url s)
     = Ok image_array ->
     is_valid_leaf_image (Backend := Api.backend) image_array = Ok true ->
     Api.analyze get_json = mk_response 500 (ErrorBody "Model not loaded")) /\
  (forall mask stats,
     Api.analyze get_json <> mk_response 200 (Analysis mask stats)) /\
  ((forall v, image_value get_json = Some v -> exists s, v = JString s) ->
   (forall s image_array,
      image_value get_json = Some (JString s) ->
      decode_base64_image (Backend := Api.backend) (Api.strip_data_url s)
      = Ok image_array ->
      is_valid_leaf_image (Backend := Api.backend) image_array <> Ok true) ->
   Api.analyze get_json
   = analyze_leaf (H := Api.backend) (strip_request get_json)).
Proof.
  intro Hm. unfold Api.analyze, analyze_leaf, strip_request.
  destruct (image_value get_json) as [v|] eqn:Hv.
  2:{ rewrite (api_analyze_try_no_image _ _ Hv).
      split; [discriminate|]. split; [|reflexivity].
      intros mask stats.
      destruct (analyze_leaf_try_no_image (H := Api.backend) get_json Hv)
        as [[-> _] | [e [-> _]]]; discriminate. }
  rewrite (api_analyze_try_image _ _ _ Hv).
  destruct v as [|b|z|x|s|items|items];
    try (split; [discriminate|]; split;
         [discriminate | intros Hstr _; destruct (Hstr _ eq_refl);
                         discriminate]).
  rewrite api_analyze_request, analyze_leaf_request. cbn [decode_value].
  destruct (decode_base64_image (Api.strip_data_url s)) as [img|e] eqn:Hdec;
    cbn [bind].
  2:{ split; [intros s' img' [= <-]; congruence|].
      split; [discriminate | reflexivity]. }
  destruct (is_valid_leaf_image img) as [[|]|e] eqn:Hleaf; cbn [bind negb];
    rewrite ?Hm; cbn [negb].
  - split; [reflexivity|]. split; [discriminate|].
    intros _ Hnot. destruct (Hnot s img eq_refl Hdec Hleaf).
  - split; [intros s' img' [= <-]; congruence|].
    split; [discriminate | reflexivity].
  - split; [intros s' img' [= <-]; congruence|].
    split; [discriminate | reflexivity].
Qed.

(** The theorem on the sample backend without its model: a leaf, and a
    request without an image. *)
Lemma api_analyze_without_model_witness :
  Api.analyze (H := cold_serverless)
              (image_request "data:image/jpeg;base64,aGk=")
  = mk_response 500 (ErrorBody "Model not loaded") /\
  Api.analyze (H := cold_serverless) (Ok (JObject []))
  = analyze_leaf (H := sample_backend) (Ok (JObject [])).
Proof.
  destruct (api_analyze_without_model cold_serverless
              (image_request "data:image/jpeg;base64,aGk=") eq_refl)
    as [Hleaf _].
  destruct (api_analyze_without_model cold_serverless
              (Ok (JObject [])) eq_refl)
    as [_ [_ Hsame]].
  split.
  - apply (Hleaf "data:image/jpeg;base64,aGk="%string sample_photo);
      reflexivity.
  - apply Hsame; [intros v H | intros s img H]; discriminate H.
Defined.
